(** * transform.go: CSV to JSON conversion of a labelled email dataset

    A shallow embedding of [src/transform.go] (loader [ReadCSV], partitioner
    [SplitData], view projection and single-file writer in [main], chunked
    writer [SplitAndWriteJSON]) and the properties of its specification.

    Conventions of the embedding:
    - a Go [int] is a [Z]; arithmetic on values that come from the caller
      ([maxSizeKB * bytesPerKB], [trainCount + testCount]) is Go's 64-bit
      wrap-around arithmetic ([GoInt.mul], [GoInt.add]).  Loop indices and
      the chunk counter never leave [0 .. len(records) + 1], which every Go
      int holds, and are natural numbers;
    - a Go slice is a [slice]: either the nil slice or an allocated sequence,
      because [encoding/json] tells the two apart;
    - a Go string and a [[]byte] are both a [string] (a sequence of 8-bit
      characters), and [len] of either is [String.length];
    - a Go function that can return an error, panic, or (in this embedding)
      run out of loop fuel returns an [outcome];
    - the operating system is a [Disk]: which names can be written, and the
      sequence of completed [os.WriteFile] calls; the random source is the
      function [Perm] that [rand.Perm] computes for the current seed. *)

From Stdlib Require Import ZArith String Ascii List Lia Permutation Sorted.
From stdpp Require Import base tactics option list strings gmap sets pretty.

Local Open Scope string_scope.

(** ** Go integers *)

Module GoInt.

Definition min_int : Z := (- 2 ^ 63)%Z.
Definition max_int : Z := (2 ^ 63 - 1)%Z.

(** The value a 64-bit signed register holds for the integer [z]. *)
Definition wrap (z : Z) : Z := ((z + 2 ^ 63) `mod` 2 ^ 64 - 2 ^ 63)%Z.

Definition add (a b : Z) : Z := wrap (a + b).
Definition mul (a b : Z) : Z := wrap (a * b).

Definition representable (z : Z) : Prop := (min_int ≤ z ≤ max_int)%Z.

End GoInt.

(** ** Go slices *)

Inductive slice (A : Type) : Type :=
| SliceNil : slice A
| SliceOf (l : list A) : slice A.

Arguments SliceNil {A}.
Arguments SliceOf {A} l.

Definition elems {A} (s : slice A) : list A :=
  match s with
  | SliceNil => []
  | SliceOf l => l
  end.

Definition len {A} (s : slice A) : nat := length (elems s).

(** [append(s, x)]: the result is always allocated. *)
Definition append {A} (s : slice A) (x : A) : slice A := SliceOf (elems s ++ [x]).

(** [make([]T, 0, n)]: allocated and empty. *)
Definition make {A} : slice A := SliceOf [].

(** [s[lo:hi]] for indices that are already known to be non-negative; [None]
    is the run-time panic "slice bounds out of range".  (The capacity of every
    slice re-sliced by the program equals its length.) *)
Definition reslice {A} (s : slice A) (lo hi : nat) : option (slice A) :=
  if (lo <=? hi)%nat && (hi <=? len s)%nat then
    Some match s with
         | SliceNil => SliceNil
         | SliceOf l => SliceOf (take (hi - lo) (drop lo l))
         end
  else None.

(** [s[lo:hi]] for arbitrary Go ints. *)
Definition resliceZ {A} (s : slice A) (lo hi : Z) : option (slice A) :=
  if ((0 <=? lo) && (lo <=? hi) && (hi <=? Z.of_nat (len s)))%Z then
    reslice s (Z.to_nat lo) (Z.to_nat hi)
  else None.

(** ** Records and output views *)

Record EmailRecord := mkEmailRecord {
  ID : string;       (* json:"id" *)
  Email : string;    (* json:"email" *)
  Result : bool      (* json:"phish" *)
}.

Record TrainingEmailRecord := mkTrainingEmailRecord {
  TE_ID : string;    (* json:"id" *)
  TE_Email : string  (* json:"email" *)
}.

Record TrainingResultRecord := mkTrainingResultRecord {
  TR_ID : string;    (* json:"id" *)
  TR_Result : bool   (* json:"phish" *)
}.

(** ** Errors and outcomes *)

(** Error values of the Go libraries the loader talks to.  [csv.Reader.Read]
    reports a record with the wrong number of fields as a [*csv.ParseError]
    whose [Err] field is the sentinel [csv.ErrFieldCount] (reader.go builds
    [&ParseError{StartLine, Line, Column, Err: ErrFieldCount}], and documents
    the sentinels as the errors that can be returned in [ParseError.Err]);
    callers recognise it with [errors.Is] or by inspecting [Err]. *)
Inductive goerror :=
| io_EOF
| csv_ErrFieldCount
| csv_ParseError (Err : goerror)
| os_PathError.

(** [e1 == e2] on Go error interfaces: same dynamic type and same pointer.
    The sentinels are package-level variables, identical only to themselves;
    a [*csv.ParseError] or [*os.PathError] is freshly allocated for each
    failure and so identical to no sentinel. *)
Definition error_identical (e1 e2 : goerror) : bool :=
  match e1, e2 with
  | io_EOF, io_EOF => true
  | csv_ErrFieldCount, csv_ErrFieldCount => true
  | _, _ => false
  end.

(** The errors the program itself builds with [fmt.Errorf], one constructor
    per message. *)
Inductive error :=
| OpenCSVError                     (* unable to open csv file for reading *)
| ReadHeaderError                  (* unable to read csv header *)
| ReadRecordError                  (* error reading csv record *)
| MarshalError                     (* unable to marshal json data *)
| WriteFileError                   (* unable to write json to file *)
| WriteChunkError (chunkName : string)   (* unable to write json chunk %s *)
| InsufficientDataError (trainCount testCount totalCount : Z).
                                   (* training count ... is greater than or
                                      equal to the total records *)

Inductive outcome (A : Type) : Type :=
| Ok (a : A)
| Err (e : error)
| Panic
| OutOfFuel.

Arguments Ok {A} a.
Arguments Err {A} e.
Arguments Panic {A}.
Arguments OutOfFuel {A}.

(** ** encoding/json: [json.MarshalIndent] with an empty prefix and a
    two-space indent *)

(** The JSON string literal (quotes and escapes) Go writes for a string. *)
Class StringEncoder := encodeString : string → string.

(** A struct type with its [json:"..."] field tags: the object members, in
    declaration order, each a key and the encoded value. *)
Class JSONStruct (A : Type) := jsonFields : StringEncoder → A → list (string * string).

Definition dquote : string := String "034"%char EmptyString.
Definition newline : string := String "010"%char EmptyString.

Fixpoint indentation (depth : nat) : string :=
  match depth with
  | O => EmptyString
  | S d => "  " +:+ indentation d
  end.

Definition encodeBool (b : bool) : string := if b then "true" else "false".

Definition encodeMember (kv : string * string) : string :=
  dquote +:+ kv.1 +:+ dquote +:+ ": " +:+ kv.2.

Definition encodeObject (depth : nat) (members : list (string * string)) : string :=
  match members with
  | [] => "{}"
  | _ =>
      "{" +:+ newline +:+ indentation (S depth)
      +:+ String.concat ("," +:+ newline +:+ indentation (S depth)) (encodeMember <$> members)
      +:+ newline +:+ indentation depth +:+ "}"
  end.

Definition encodeArray (depth : nat) (items : list string) : string :=
  match items with
  | [] => "[]"
  | _ =>
      "[" +:+ newline +:+ indentation (S depth)
      +:+ String.concat ("," +:+ newline +:+ indentation (S depth)) items
      +:+ newline +:+ indentation depth +:+ "]"
  end.

Definition MarshalIndent `{enc : StringEncoder} {A} `{JSONStruct A} (data : slice A) : string :=
  match data with
  | SliceNil => "null"
  | SliceOf l => encodeArray 0 ((λ x, encodeObject 1 (jsonFields enc x)) <$> l)
  end.

#[export] Instance EmailRecord_json : JSONStruct EmailRecord := λ enc r,
  [("id", enc (ID r)); ("email", enc (Email r)); ("phish", encodeBool (Result r))].

#[export] Instance TrainingEmailRecord_json : JSONStruct TrainingEmailRecord := λ enc r,
  [("id", enc (TE_ID r)); ("email", enc (TE_Email r))].

#[export] Instance TrainingResultRecord_json : JSONStruct TrainingResultRecord := λ enc r,
  [("id", enc (TR_ID r)); ("phish", encodeBool (TR_Result r))].

(** A string encoder for the examples: the literal Go writes for text made of
    printable ASCII other than the quote, the backslash and the HTML
    characters, which it copies unchanged between quotes. *)
Definition quotePlain : StringEncoder := λ s, dquote +:+ s +:+ dquote.

(** ** encoding/csv: the reader over an opened file *)

(** A reader holds the records the CSV lexer still has to deliver and
    [FieldsPerRecord]: 0 until the first record is read, which sets it to its
    number of fields; when positive, every later record must have that many
    fields. *)
Record Reader := mkReader {
  FieldsPerRecord : Z;
  pending : list (list string)
}.

Definition NewReader (file : list (list string)) : Reader :=
  {| FieldsPerRecord := 0; pending := file |}.

(** [csvReader.Read()]: the record, the error if any, and the reader after
    the call.  A record with the wrong number of fields is returned together
    with a [*csv.ParseError] that wraps [csv.ErrFieldCount]. *)
Definition Read (r : Reader) : list string * option goerror * Reader :=
  match pending r with
  | [] => ([], Some io_EOF, r)
  | record :: rest =>
      let r' := {| FieldsPerRecord := FieldsPerRecord r; pending := rest |} in
      if (0 <? FieldsPerRecord r)%Z then
        if (Z.of_nat (length record) =? FieldsPerRecord r)%Z
        then (record, None, r')
        else (record, Some (csv_ParseError csv_ErrFieldCount), r')
      else if (FieldsPerRecord r =? 0)%Z then
        (record, None, {| FieldsPerRecord := Z.of_nat (length record); pending := rest |})
      else (record, None, r')
  end.

(** ** The loader *)

Definition positiveLabel : string := "Phishing Email".

(** The [for] loop of [ReadCSV] (lines 56-72).  Each iteration consumes one
    pending record, so [fuel] bounds the iterations. *)
Fixpoint readRecords (fuel : nat) (csvReader : Reader) (records : slice EmailRecord)
  : outcome (slice EmailRecord) :=
  match fuel with
  | O => OutOfFuel
  | S fuel' =>
      let '(record, recordReadErr, csvReader') := Read csvReader in
      match recordReadErr with
      | Some e =>
          if error_identical e csv_ErrFieldCount then Err ReadRecordError
          else Ok records                                (* break *)
      | None =>
          match record !! 0%nat, record !! 1%nat, record !! 2%nat with
          | Some c0, Some c1, Some c2 =>
              let emailRecord :=
                {| ID := c0; Email := c1; Result := bool_decide (c2 = positiveLabel) |} in
              readRecords fuel' csvReader' (append records emailRecord)
          | _, _, _ => Panic                             (* index out of range *)
          end
      end
  end.

(** [ReadCSV(filename)].  [csvFiles filename] is what [os.Open] finds: the
    records of the file, or nothing when it cannot be opened. *)
Definition ReadCSV (csvFiles : string → option (list (list string))) (filename : string)
  : outcome (slice EmailRecord) :=
  match csvFiles filename with
  | None => Err OpenCSVError
  | Some file =>
      let csvReader := NewReader file in
      let '(_, headerLineErr, csvReader) := Read csvReader in
      match headerLineErr with
      | Some _ => Err ReadHeaderError
      | None => readRecords (S (length (pending csvReader))) csvReader SliceNil
      end
  end.

(** ** Single-file writer *)

(** [ConvertToJSON(data)]: marshalling structs of strings and booleans cannot
    fail, so the error branch of the source is never taken. *)
Definition ConvertToJSON `{StringEncoder} {A} `{JSONStruct A} (data : slice A) : outcome string :=
  Ok (MarshalIndent data).

Record Disk := mkDisk {
  writable : string → bool;            (* does os.WriteFile succeed on this name *)
  written : list (string * string)     (* completed writes: name and content, oldest first *)
}.

Definition os_WriteFile (name data : string) (d : Disk) : bool * Disk :=
  if writable d name
  then (true, {| writable := writable d; written := written d ++ [(name, data)] |})
  else (false, d).

(** [WriteJSON(filename, data)]: [None] is the nil error. *)
Definition WriteJSON (filename data : string) (d : Disk) : option error * Disk :=
  match os_WriteFile filename data d with
  | (true, d') => (None, d')
  | (false, d') => (Some WriteFileError, d')
  end.

(** ** Chunked writer *)

Definition bytesPerKB : Z := 1024.

(** [maxSize := maxSizeKB * bytesPerKB] (line 98). *)
Definition maxSizeOf (maxSizeKB : Z) : Z := GoInt.mul maxSizeKB bytesPerKB.

(** [fmt.Sprintf("%s_%d.json", fileNamePrefix, chunkNum)]. *)
Definition chunkNameOf (fileNamePrefix : string) (chunkNum : nat) : string :=
  fileNamePrefix +:+ "_" +:+ pretty chunkNum +:+ ".json".

(** The inner loop (lines 109-118): from [endIdx], grow the candidate
    [records[startIdx:endIdx+1]] while its serialization fits.  Returns the
    final [endIdx]. *)
Fixpoint growChunk `{StringEncoder} (fuel : nat) (records : slice EmailRecord) (maxSize : Z)
    (startIdx endIdx : nat) : outcome nat :=
  match fuel with
  | O => OutOfFuel
  | S fuel' =>
      if (endIdx <? len records)%nat then
        match reslice records startIdx (endIdx + 1) with
        | None => Panic
        | Some candidate =>
            let chunkData := MarshalIndent candidate in
            if (maxSize <? Z.of_nat (String.length chunkData))%Z then Ok endIdx   (* break *)
            else growChunk fuel' records maxSize startIdx (endIdx + 1)
        end
      else Ok endIdx
  end.

(** The outer loop (lines 103-137). *)
Fixpoint writeChunks `{StringEncoder} (fuel : nat) (fileNamePrefix : string)
    (records : slice EmailRecord) (maxSize : Z) (chunkNum startIdx : nat) (d : Disk)
  : outcome unit * Disk :=
  match fuel with
  | O => (OutOfFuel, d)
  | S fuel' =>
      if (startIdx <? len records)%nat then
        match growChunk (S (len records)) records maxSize startIdx startIdx with
        | Ok endIdx =>
            (* If we can't even fit one record, we must write it anyways *)
            let endIdx := if (startIdx =? endIdx)%nat then (endIdx + 1)%nat else endIdx in
            match reslice records startIdx endIdx with
            | None => (Panic, d)
            | Some chunk =>
                let chunkData := MarshalIndent chunk in
                let chunkName := chunkNameOf fileNamePrefix chunkNum in
                match WriteJSON chunkName chunkData d with
                | (Some _, d') => (Err (WriteChunkError chunkName), d')
                | (None, d') =>
                    writeChunks fuel' fileNamePrefix records maxSize (chunkNum + 1) endIdx d'
                end
            end
        | Err e => (Err e, d)
        | Panic => (Panic, d)
        | OutOfFuel => (OutOfFuel, d)
        end
      else (Ok tt, d)
  end.

Definition SplitAndWriteJSON `{StringEncoder} (fileNamePrefix : string)
    (records : slice EmailRecord) (maxSizeKB : Z) (d : Disk) : outcome unit * Disk :=
  writeChunks (S (len records)) fileNamePrefix records (maxSizeOf maxSizeKB) 1 0 d.

(** ** Partitioner *)

(** [contains(slice, i)]. *)
Fixpoint contains (slice : list nat) (i : nat) : bool :=
  match slice with
  | [] => false
  | v :: rest => if (v =? i)%nat then true else contains rest i
  end.

(** The [range] loop of [SplitData] (lines 160-168), at index [i] with
    [rest] still to visit. *)
Fixpoint distribute (trainIndices testIndices : list nat) (i : nat) (rest : list EmailRecord)
    (sets : slice EmailRecord * slice EmailRecord * slice EmailRecord)
  : slice EmailRecord * slice EmailRecord * slice EmailRecord :=
  match rest with
  | [] => sets
  | record :: rest' =>
      let '(trainSet, testSet, learnSet) := sets in
      distribute trainIndices testIndices (S i) rest'
        (if contains trainIndices i then (append trainSet record, testSet, learnSet)
         else if contains testIndices i then (trainSet, append testSet record, learnSet)
         else (trainSet, testSet, append learnSet record))
  end.

(** Lines 152-154: the permutation and its two leading segments,
    [randomIndices[:trainCount]] and
    [randomIndices[trainCount : trainCount+testCount]].  [Perm n] is the slice
    [prng.Perm(n)] returns for the seed of this run; [None] is a panic. *)
Definition drawIndices (Perm : nat → list nat) (totalCount : nat) (trainCount testCount : Z)
  : option (list nat * list nat) :=
  let randomIndices := SliceOf (Perm totalCount) in
  match resliceZ randomIndices 0 trainCount with
  | None => None
  | Some trainIndices =>
      match resliceZ randomIndices trainCount (GoInt.add trainCount testCount) with
      | None => None
      | Some testIndices => Some (elems trainIndices, elems testIndices)
      end
  end.

(** [SplitData(records, trainCount, testCount)]. *)
Definition SplitData (Perm : nat → list nat) (records : slice EmailRecord)
    (trainCount testCount : Z)
  : outcome (slice EmailRecord * slice EmailRecord * slice EmailRecord) :=
  let totalCount := Z.of_nat (len records) in
  if (totalCount <=? GoInt.add trainCount testCount)%Z then
    Err (InsufficientDataError trainCount testCount totalCount)
  else
    match drawIndices Perm (len records) trainCount testCount with
    | None => Panic
    | Some (trainIndices, testIndices) =>
        Ok (distribute trainIndices testIndices 0 (elems records) (make, make, make))
    end.

(** ** The orchestrator *)

Definition csvFileName : string := "Phishing_Email.csv".
Definition trainEmailJSONFileName : string := "Phishing_Training_Data.json".
Definition trainResultJSONFileName : string := "Phishing_Training_Result.json".
Definition testJSONFileName : string := "Phishing_Testing_Data.json".
Definition learnJSONFilePrefix : string := "Phishing_Learning_Data".
Definition trainCount : Z := 30.
Definition testCount : Z := 20.
Definition maxFileSizeKB : Z := 5000.

(** Steps 3 and 4 of [main]: the views start as nil slices ([var s []T]) and
    grow by [append]. *)
Definition trainEmailSetOf (trainSet : slice EmailRecord) : slice TrainingEmailRecord :=
  fold_left (λ s record, append s {| TE_ID := ID record; TE_Email := Email record |})
            (elems trainSet) SliceNil.

Definition trainResultSetOf (trainSet : slice EmailRecord) : slice TrainingResultRecord :=
  fold_left (λ s record, append s {| TR_ID := ID record; TR_Result := Result record |})
            (elems trainSet) SliceNil.

(** [ConvertToJSON] followed by [WriteJSON], with [log.Fatalf] on either
    error: the continuation runs only after a successful write. *)
Definition convertAndWrite `{StringEncoder} {A} `{JSONStruct A} (filename : string)
    (data : slice A) (d : Disk) (next : Disk → outcome unit * Disk) : outcome unit * Disk :=
  match ConvertToJSON data with
  | Ok jsonData =>
      match WriteJSON filename jsonData d with
      | (None, d') => next d'
      | (Some e, d') => (Err e, d')
      end
  | Err e => (Err e, d)
  | Panic => (Panic, d)
  | OutOfFuel => (OutOfFuel, d)
  end.

(** Steps 3 to 9 of [main]: everything after the partition.  The source
    converts both training views before writing either; conversion has no
    effect and cannot fail, so the order is not observable. *)
Definition writeOutputs `{StringEncoder}
    (trainSet testSet learnSet : slice EmailRecord) (maxSizeKB : Z) (d : Disk)
  : outcome unit * Disk :=
  let trainEmailSet := trainEmailSetOf trainSet in
  let trainResultSet := trainResultSetOf trainSet in
  convertAndWrite trainEmailJSONFileName trainEmailSet d (λ d,
  convertAndWrite trainResultJSONFileName trainResultSet d (λ d,
  convertAndWrite testJSONFileName testSet d (λ d,
  SplitAndWriteJSON learnJSONFilePrefix learnSet maxSizeKB d))).

(** [main]: an [Err] outcome is the error handed to [log.Fatalf]. *)
Definition main `{StringEncoder} (csvFiles : string → option (list (list string)))
    (Perm : nat → list nat) (d : Disk) : outcome unit * Disk :=
  match ReadCSV csvFiles csvFileName with
  | Ok records =>
      match SplitData Perm records trainCount testCount with
      | Ok (trainSet, testSet, learnSet) =>
          writeOutputs trainSet testSet learnSet maxFileSizeKB d
      | Err e => (Err e, d)
      | Panic => (Panic, d)
      | OutOfFuel => (OutOfFuel, d)
      end
  | Err e => (Err e, d)
  | Panic => (Panic, d)
  | OutOfFuel => (OutOfFuel, d)
  end.

(** ** Vocabulary of the specification *)

(** Serialized byte size of the JSON array of a chunk. *)
Definition jsonSize `{StringEncoder} (chunk : list EmailRecord) : Z :=
  Z.of_nat (String.length (MarshalIndent (SliceOf chunk))).

(** The files of a series of chunks, numbered from [first]. *)
Definition chunkFiles `{StringEncoder} (fileNamePrefix : string) (first : nat)
    (chunks : list (list EmailRecord)) : list (string * string) :=
  imap (λ i chunk, (chunkNameOf fileNamePrefix (first + i), MarshalIndent (SliceOf chunk))) chunks.

(** [records[s:e]] on the underlying sequence. *)
Definition window {A} (l : list A) (s e : nat) : list A := take (e - s) (drop s l).

(** All runs of [k] consecutive elements. *)
Fixpoint windows {A} (k : nat) (l : list A) : list (list A) :=
  match l with
  | [] => []
  | _ :: l' => if (k <=? length l)%nat then take k l :: windows k l' else []
  end.

Definition fits `{StringEncoder} (maxSize : Z) (chunk : list EmailRecord) : bool :=
  (jsonSize chunk <=? maxSize)%Z.

(** The records at the given positions, in the order the positions are listed. *)
Definition membersAt {A} (l : list A) (positions : list nat) : list A :=
  omap (λ i, l !! i) positions.

Definition is_insufficient {A} (o : outcome A) : bool :=
  match o with
  | Err (InsufficientDataError _ _ _) => true
  | _ => false
  end.

(** A chunk respects the byte limit: its array is no longer than the limit,
    unless the chunk is a single record that alone is longer. *)
Definition withinLimit `{StringEncoder} (limit : Z) (chunk : list EmailRecord) : Prop :=
  (jsonSize chunk ≤ limit)%Z ∨ ∃ r, chunk = [r] ∧ (limit < jsonSize [r])%Z.

(** A chunk the writer may emit for the byte limit [maxSize]. *)
Definition admissible `{StringEncoder} (maxSize : Z) (chunk : list EmailRecord) : Prop :=
  chunk ≠ [] ∧ withinLimit maxSize chunk.

(** The positions below [n] that satisfy [p], in increasing order. *)
Definition positions (p : nat → bool) (n : nat) : list nat := filter (λ i, p i) (seq 0 n).

(** Which positions the [range] loop of [SplitData] sends to each subset. *)
Definition toTrain (trainIndices : list nat) (i : nat) : bool := contains trainIndices i.
Definition toTest (trainIndices testIndices : list nat) (i : nat) : bool :=
  negb (contains trainIndices i) && contains testIndices i.
Definition toLearn (trainIndices testIndices : list nat) (i : nat) : bool :=
  negb (contains trainIndices i) && negb (contains testIndices i).

(** Bytes a record contributes to the array that holds it: its object and
    the separator or bracket lines around it. *)
Definition recordSize `{enc : StringEncoder} (r : EmailRecord) : nat :=
  4 + String.length (encodeObject 1 (jsonFields enc r)).

(** Row by row, what the loader builds from a row. *)
Definition builtFrom (row : list string) (record : EmailRecord) : Prop :=
  row !! 0 = Some (ID record) ∧ row !! 1 = Some (Email record) ∧
  ∃ label, row !! 2 = Some label ∧ (Result record = true ↔ label = "Phishing Email").

(** ** Sample inputs *)

(** A disk on which every write succeeds. *)
Definition allWritable : Disk := {| writable := λ _, true; written := [] |}.

(** Records with a 400-byte email, so that two fit in a kilobyte and three
    do not, and records with a short one. *)
Fixpoint filler (n : nat) : string :=
  match n with
  | O => EmptyString
  | S n' => String "a"%char (filler n')
  end.
Definition sampleRecord (id : string) (phish : bool) : EmailRecord :=
  {| ID := id; Email := filler 400; Result := phish |}.
Definition shortRecord (id : string) (phish : bool) : EmailRecord :=
  {| ID := id; Email := "a@x"; Result := phish |}.

(** [rand.Perm] for a seed that happens to give the descending permutation. *)
Definition reversed (n : nat) : list nat := rev (seq 0 n).
Definition fiveRecords : slice EmailRecord :=
  SliceOf [shortRecord "1" true; shortRecord "2" false; shortRecord "3" false;
           shortRecord "4" true; shortRecord "5" false].

(** A well-formed file, and one whose second data row lacks a column. *)
Definition sampleFile : list (list string) :=
  [["id"; "email"; "label"];
   ["1"; "a@x"; "Phishing Email"];
   ["2"; "b@x"; "Safe Email"];
   ["3"; "c@x"; "phishing email"]].

Definition shortRowFile : list (list string) :=
  [["id"; "email"; "label"];
   ["1"; "a@x"; "Phishing Email"];
   ["2"; "b@x"];
   ["3"; "c@x"; "Safe Email"]].

(** ** Vocabulary of the further properties *)

(** A series of chunks is greedy when no chunk could have taken the record
    that follows it: the chunk with that record appended is over the limit.
    [rest] is what follows the last chunk. *)
Fixpoint greedy `{StringEncoder} (maxSize : Z) (chunks : list (list EmailRecord))
    (rest : list EmailRecord) : Prop :=
  match chunks with
  | [] => True
  | chunk :: chunks' =>
      match (concat chunks' ++ rest)%list with
      | [] => True
      | next :: _ => (maxSize < jsonSize (chunk ++ [next])%list)%Z
      end ∧ greedy maxSize chunks' rest
  end.

(** The files [main] means to write, in the order it writes them. *)
Definition intendedFiles `{StringEncoder} (trainSet testSet : slice EmailRecord)
    (chunks : list (list EmailRecord)) : list (string * string) :=
  ([(trainEmailJSONFileName, MarshalIndent (trainEmailSetOf trainSet));
    (trainResultJSONFileName, MarshalIndent (trainResultSetOf trainSet));
    (testJSONFileName, MarshalIndent testSet)]
   ++ chunkFiles learnJSONFilePrefix 1 chunks)%list.

(** A disk that refuses one name, and a well-formed file with [n] data rows. *)
Definition refusing (name : string) : Disk :=
  {| writable := λ n, negb (String.eqb n name); written := [] |}.

Definition manyRows (n : nat) : list (list string) :=
  ["id"; "email"; "label"]
  :: ((λ i : nat, [pretty i; "a@x"; if Nat.even i then "Phishing Email" else "Safe Email"])
        <$> seq 0 n).

Local Open Scope list_scope.
Local Open Scope nat_scope.

(** * Properties *)

(** ** Go integers *)

Lemma wrap_representable z : GoInt.representable (GoInt.wrap z).
Proof.
  unfold GoInt.representable, GoInt.wrap, GoInt.min_int, GoInt.max_int.
  pose proof (Z.mod_pos_bound (z + 2 ^ 63) (2 ^ 64)) as Hb. lia.
Qed.

Lemma wrap_exact z : GoInt.representable z → GoInt.wrap z = z.
Proof.
  unfold GoInt.representable, GoInt.wrap, GoInt.min_int, GoInt.max_int. intros Hz.
  rewrite Z.mod_small; lia.
Qed.

(** The register value never exceeds an integer that did not underflow. *)
Lemma wrap_le z : (GoInt.min_int ≤ z)%Z → (GoInt.wrap z ≤ z)%Z.
Proof.
  intros Hz. destruct (Z_le_gt_dec z GoInt.max_int) as [Hle|Hgt].
  - rewrite wrap_exact; [lia | by split].
  - pose proof (wrap_representable z) as [_ Hw]. lia.
Qed.

Example wrap_above : GoInt.add (2 ^ 62) (2 ^ 62) = (- 2 ^ 63)%Z.
Proof. reflexivity. Qed.

Example wrap_below : GoInt.mul (- 2 ^ 54 + 1) 1024 = 1024%Z.
Proof. reflexivity. Qed.

Example maxSizeOf_default : maxSizeOf maxFileSizeKB = 5120000%Z.
Proof. reflexivity. Qed.

(** ** Slices *)

Lemma reslice_alloc {A} (l : list A) lo hi :
  lo ≤ hi → hi ≤ length l → reslice (SliceOf l) lo hi = Some (SliceOf (window l lo hi)).
Proof.
  intros H1 H2. unfold reslice, len. simpl.
  destruct (Nat.leb_spec lo hi); [|lia]. destruct (Nat.leb_spec hi (length l)); [|lia]. done.
Qed.

Lemma window_length {A} (l : list A) s e :
  s ≤ e → e ≤ length l → length (window l s e) = e - s.
Proof. intros. unfold window. rewrite length_take, length_drop. lia. Qed.

Lemma window_snoc {A} (l : list A) s e :
  s ≤ e → drop s l = window l s e ++ drop e l.
Proof.
  intros Hse. unfold window.
  replace (drop e l) with (drop (e - s) (drop s l)).
  - by rewrite take_drop.
  - rewrite drop_drop. f_equal. lia.
Qed.

Lemma window_single {A} (l : list A) s r :
  l !! s = Some r → window l s (s + 1) = [r].
Proof.
  intros Hr. unfold window. replace (s + 1 - s) with 1 by lia.
  rewrite (drop_S _ _ _ Hr). by destruct (drop (S s) l).
Qed.

(** ** The chunked writer *)

Section ChunkedWriter.
Context `{enc : StringEncoder}.

Lemma growChunk_spec (l : list EmailRecord) maxSize s fuel e :
  s ≤ e → e ≤ length l → length l - e < fuel →
  ∃ e', growChunk fuel (SliceOf l) maxSize s e = Ok e' ∧ e ≤ e' ≤ length l ∧
    (∀ k, e ≤ k < e' → (jsonSize (window l s (k + 1)) ≤ maxSize)%Z) ∧
    (e' < length l → (maxSize < jsonSize (window l s (e' + 1)))%Z).
Proof.
  revert e. induction fuel as [|fuel IH]; intros e Hse Hel Hf; [lia|].
  simpl. unfold len; simpl.
  destruct (Nat.ltb_spec e (length l)) as [Hlt|Hge].
  - rewrite reslice_alloc by lia.
    fold (jsonSize (window l s (e + 1))).
    destruct (Z.ltb_spec maxSize (jsonSize (window l s (e + 1)))) as [Hbig|Hfits].
    + exists e. split; [done|]. split; [lia|]. split; [intros; lia|done].
    + destruct (IH (e + 1)) as (e' & He' & Hr & Hfit & Hov); [lia..|].
      exists e'. split; [done|]. split; [lia|]. split; [|done].
      intros k Hk. destruct (decide (k = e)) as [->|]; [done|]. apply Hfit. lia.
  - exists e. split; [done|]. split; [lia|]. split; intros; lia.
Qed.

(** The value the inner loop returns is determined by the sizes of the
    candidates. *)
Lemma growChunk_boundary (l : list EmailRecord) maxSize s e' :
  s ≤ e' → e' ≤ length l →
  (∀ k, s ≤ k < e' → (jsonSize (window l s (k + 1)) ≤ maxSize)%Z) →
  (e' < length l → (maxSize < jsonSize (window l s (e' + 1)))%Z) →
  growChunk (S (length l)) (SliceOf l) maxSize s s = Ok e'.
Proof.
  intros Hs He Hfit Hov.
  destruct (growChunk_spec l maxSize s (S (length l)) s) as (e & Hg & Hr & Hfit' & Hov');
    [lia..|].
  rewrite Hg. f_equal.
  destruct (Nat.lt_trichotomy e e') as [Hlt|[->|Hgt]]; [|done|].
  - specialize (Hfit e). specialize (Hov'). lia.
  - specialize (Hfit' e'). lia.
Qed.

Lemma chunkFiles_cons prefix c chunk chunks :
  chunkFiles prefix c (chunk :: chunks)
  = (chunkNameOf prefix c, MarshalIndent (SliceOf chunk)) :: chunkFiles prefix (c + 1) chunks.
Proof.
  unfold chunkFiles. rewrite imap_cons. f_equal; [by rewrite Nat.add_0_r|].
  apply imap_ext. intros i x _. simpl. do 2 f_equal. lia.
Qed.

(** One turn of the outer loop when the write succeeds. *)
Lemma writeChunks_step prefix (l : list EmailRecord) maxSize fuel c s e' d :
  s < length l →
  growChunk (S (length l)) (SliceOf l) maxSize s s = Ok e' → e' ≤ length l →
  writable d (chunkNameOf prefix c) = true →
  let e := if (s =? e')%nat then e' + 1 else e' in
  writeChunks (S fuel) prefix (SliceOf l) maxSize c s d
  = writeChunks fuel prefix (SliceOf l) maxSize (c + 1) e
      {| writable := writable d;
         written := written d
           ++ [(chunkNameOf prefix c, MarshalIndent (SliceOf (window l s e)))] |}.
Proof.
  intros Hs Hg He' Hw e. cbn [writeChunks]. change (len (SliceOf l)) with (length l).
  destruct (Nat.ltb_spec s (length l)); [|lia].
  rewrite Hg. fold e.
  assert (s ≤ e ∧ e ≤ length l) as [? ?].
  { subst e. destruct (Nat.eqb_spec s e'); [lia|].
    pose proof (growChunk_spec l maxSize s (S (length l)) s) as (x & Hx & ? & _); [lia..|].
    rewrite Hg in Hx. injection Hx as <-. lia. }
  rewrite reslice_alloc by lia.
  unfold WriteJSON, os_WriteFile. by rewrite Hw.
Qed.

Lemma writeChunks_spec prefix (l : list EmailRecord) maxSize fuel c s d :
  s ≤ length l → length l - s < fuel →
  ∃ chunks o d', writeChunks fuel prefix (SliceOf l) maxSize c s d = (o, d') ∧
    writable d' = writable d ∧
    written d' = written d ++ chunkFiles prefix c chunks ∧
    Forall (admissible maxSize) chunks ∧
    concat chunks `prefix_of` drop s l ∧
    ((o = Ok tt ∧ concat chunks = drop s l) ∨
     (o = Err (WriteChunkError (chunkNameOf prefix (c + length chunks))) ∧
      writable d (chunkNameOf prefix (c + length chunks)) = false)).
Proof.
  revert c s d. induction fuel as [|fuel IH]; intros c s d Hs Hf; [lia|].
  destruct (decide (s < length l)) as [Hlt|Hge].
  - destruct (growChunk_spec l maxSize s (S (length l)) s) as (e' & Hg & Hr & Hfit & Hov);
      [lia..|].
    set (e := if (s =? e')%nat then e' + 1 else e').
    assert (s < e ∧ e ≤ length l) as [Hse Hel].
    { subst e. destruct (Nat.eqb_spec s e'); lia. }
    assert (admissible maxSize (window l s e)) as Hadm.
    { split.
      - intros Hnil. apply (f_equal length) in Hnil. rewrite window_length in Hnil by lia.
        simpl in Hnil. lia.
      - subst e. destruct (Nat.eqb_spec s e') as [<-|Hne].
        + right. destruct (lookup_lt_is_Some_2 l s Hlt) as [r Hr'].
          exists r. rewrite (window_single _ _ _ Hr') in *. split; [done|]. by apply Hov.
        + left. replace e' with (e' - 1 + 1) by lia. apply Hfit. lia. }
    destruct (writable d (chunkNameOf prefix c)) eqn:Hw.
    + pose proof (writeChunks_step prefix l maxSize fuel c s e' d Hlt Hg ltac:(lia) Hw) as Hstep.
      cbv zeta in Hstep. fold e in Hstep. rewrite Hstep. clear Hstep.
      edestruct (IH (c + 1) e) as (chunks & o & d' & Hrun & Hwr & Hlog & Hall & Hpre & Hout);
        [lia| lia |].
      exists (window l s e :: chunks), o, d'.
      split; [exact Hrun|]. split; [by rewrite Hwr|].
      split. { rewrite Hlog. simpl. rewrite chunkFiles_cons, <- app_assoc. done. }
      split; [by constructor|].
      split. { simpl. rewrite (window_snoc l s e) by lia. by apply prefix_app. }
      simpl length. replace (c + S (length chunks)) with (c + 1 + length chunks) by lia.
      destruct Hout as [[-> Hcat]|[-> Hno]]; [left|right].
      * split; [done|]. simpl. rewrite Hcat. symmetry. apply window_snoc. lia.
      * split; [done|]. exact Hno.
    + exists [], (Err (WriteChunkError (chunkNameOf prefix c))), d.
      split.
      { cbn [writeChunks]. change (len (SliceOf l)) with (length l).
        destruct (Nat.ltb_spec s (length l)); [|lia].
        rewrite Hg. fold e. rewrite reslice_alloc by lia.
        unfold WriteJSON, os_WriteFile. by rewrite Hw. }
      split; [done|]. split; [by rewrite app_nil_r|]. split; [constructor|].
      split; [apply prefix_nil|]. right. simpl. rewrite Nat.add_0_r. done.
  - exists [], (Ok tt), d.
    split.
    { cbn [writeChunks]. change (len (SliceOf l)) with (length l).
      by destruct (Nat.ltb_spec s (length l)); [lia|]. }
    split; [done|]. split; [by rewrite app_nil_r|]. split; [constructor|].
    split; [apply prefix_nil|]. left. split; [done|]. simpl.
    symmetry. apply drop_ge. lia.
Qed.

(** Summary of a run of the chunked writer on any slice. *)
Lemma SplitAndWriteJSON_spec prefix (records : slice EmailRecord) maxSizeKB d :
  ∃ chunks o d', SplitAndWriteJSON prefix records maxSizeKB d = (o, d') ∧
    writable d' = writable d ∧
    written d' = written d ++ chunkFiles prefix 1 chunks ∧
    Forall (admissible (maxSizeOf maxSizeKB)) chunks ∧
    concat chunks `prefix_of` elems records ∧
    ((o = Ok tt ∧ concat chunks = elems records) ∨
     (o = Err (WriteChunkError (chunkNameOf prefix (1 + length chunks))) ∧
      writable d (chunkNameOf prefix (1 + length chunks)) = false)).
Proof.
  unfold SplitAndWriteJSON. destruct records as [|l].
  - exists [], (Ok tt), d. simpl. rewrite app_nil_r.
    repeat split; [constructor|apply prefix_nil|by left].
  - apply (writeChunks_spec prefix l (maxSizeOf maxSizeKB) (S (length l)) 1 0 d); simpl; lia.
Qed.

End ChunkedWriter.

(** ** Strings and the JSON layout *)

Lemma length_append (s1 s2 : string) :
  String.length (s1 +:+ s2) = String.length s1 + String.length s2.
Proof. induction s1 as [|a s1 IH]; simpl; [done|]. by rewrite IH. Qed.

Lemma append_inv_tail (s1 s2 t : string) : s1 +:+ t = s2 +:+ t → s1 = s2.
Proof.
  revert s2. induction s1 as [|a s1 IH]; intros [|b s2] Heq; simpl in *.
  - done.
  - apply (f_equal String.length) in Heq. rewrite !length_append in Heq. simpl in Heq. lia.
  - apply (f_equal String.length) in Heq. rewrite !length_append in Heq. simpl in Heq. lia.
  - injection Heq as -> Heq. f_equal. by apply IH.
Qed.

Lemma length_concat sep (x : string) (rest : list string) :
  String.length (String.concat sep (x :: rest))
  = String.length x + sum_list ((λ y, String.length sep + String.length y) <$> rest).
Proof.
  revert x. induction rest as [|y rest IH]; intros x.
  - simpl. lia.
  - change (String.concat sep (x :: y :: rest))
      with (x +:+ sep +:+ String.concat sep (y :: rest)).
    rewrite !length_append, IH, fmap_cons. simpl. lia.
Qed.

Lemma length_encodeArray (items : list string) :
  String.length (encodeArray 0 items)
  = 2 + sum_list ((λ y, 4 + String.length y) <$> items).
Proof.
  destruct items as [|x rest]; [done|].
  unfold encodeArray. rewrite !length_append, length_concat, !length_append, fmap_cons.
  simpl. lia.
Qed.

Example MarshalIndent_nil : @MarshalIndent quotePlain EmailRecord _ SliceNil = "null".
Proof. reflexivity. Qed.

Example MarshalIndent_empty : @MarshalIndent quotePlain EmailRecord _ (SliceOf []) = "[]".
Proof. reflexivity. Qed.

Example MarshalIndent_one :
  @MarshalIndent quotePlain _ _ (SliceOf [shortRecord "7" true])
  = "[" +:+ newline
    +:+ "  {" +:+ newline
    +:+ "    " +:+ dquote +:+ "id" +:+ dquote +:+ ": " +:+ dquote +:+ "7" +:+ dquote +:+ ","
    +:+ newline
    +:+ "    " +:+ dquote +:+ "email" +:+ dquote +:+ ": " +:+ dquote +:+ "a@x" +:+ dquote +:+ ","
    +:+ newline
    +:+ "    " +:+ dquote +:+ "phish" +:+ dquote +:+ ": true" +:+ newline
    +:+ "  }" +:+ newline
    +:+ "]".
Proof. reflexivity. Qed.

Section JSONSize.
Context `{enc : StringEncoder}.

Lemma jsonSize_sum (chunk : list EmailRecord) :
  jsonSize chunk = Z.of_nat (2 + sum_list (recordSize <$> chunk)).
Proof.
  unfold jsonSize, MarshalIndent. rewrite length_encodeArray.
  by rewrite <- list_fmap_compose.
Qed.

Lemma jsonSize_elem_of (r : EmailRecord) (chunk : list EmailRecord) :
  r ∈ chunk → (jsonSize [r] ≤ jsonSize chunk)%Z.
Proof.
  intros Hr. rewrite !jsonSize_sum. apply inj_le. simpl.
  induction Hr as [r chunk|r r' chunk _ IH]; rewrite ?fmap_cons in *; simpl in *; lia.
Qed.

End JSONSize.

#[export] Instance chunkNameOf_inj prefix : Inj (=) (=) (chunkNameOf prefix).
Proof.
  intros m n Heq. unfold chunkNameOf in Heq.
  apply String.app_inj, String.app_inj, append_inv_tail in Heq.
  by apply pretty_nat_inj in Heq.
Qed.

Lemma chunkFiles_names `{StringEncoder} prefix c chunks :
  (chunkFiles prefix c chunks).*1 = chunkNameOf prefix <$> seq c (length chunks).
Proof.
  revert c. induction chunks as [|chunk chunks IH]; intros c; [done|].
  rewrite chunkFiles_cons. simpl. f_equal. rewrite IH. f_equal. f_equal. lia.
Qed.

Lemma chunkFiles_NoDup `{StringEncoder} prefix c chunks :
  NoDup (chunkFiles prefix c chunks).*1.
Proof.
  rewrite chunkFiles_names. apply (NoDup_fmap_2 _), NoDup_seq.
Qed.

(** The chunked writer always returns: with no error, or with the error of
    the write that failed. *)
Lemma SplitAndWriteJSON_returns `{enc : StringEncoder}
    prefix (records : slice EmailRecord) (maxSizeKB : Z) d :
  (SplitAndWriteJSON prefix records maxSizeKB d).1 = Ok tt ∨
  ∃ chunkName, (SplitAndWriteJSON prefix records maxSizeKB d).1 = Err (WriteChunkError chunkName)
               ∧ writable d chunkName = false.
Proof.
  destruct (SplitAndWriteJSON_spec prefix records maxSizeKB d)
    as (chunks & o & d' & Hrun & _ & _ & _ & _ & [[-> _]|[-> Hno]]); rewrite Hrun; simpl.
  - by left.
  - right. by eexists.
Qed.

(** With a limit of zero bytes no record fits, and each goes to a file of its
    own. *)
Example one_record_per_file :
  (@SplitAndWriteJSON quotePlain "learn"
     (SliceOf [shortRecord "1" true; shortRecord "2" false]) 0 allWritable)
  = (Ok tt,
     {| writable := writable allWritable;
        written := @chunkFiles quotePlain "learn" 1
                     [[shortRecord "1" true]; [shortRecord "2" false]] |}).
Proof. reflexivity. Qed.

(** ** Claims about the chunked writer *)

(** C1. Every chunk file written by [SplitAndWriteJSON] has a serialized size
    of at most the maximum, unless it holds exactly one record whose own
    serialization exceeds the maximum; and when the call succeeds every such
    record is in the output, whole, as a chunk of its own.  The maximum is
    [maxSize] as line 98 computes it, [maxSizeKB * bytesPerKB] in Go's int
    arithmetic; whenever the integer [maxSizeKB * 1024] is not below the least
    Go int, as for every non-negative [maxSizeKB], the same holds with the
    integer [maxSizeKB * 1024] as the maximum. *)
Theorem chunk_files_within_limit `{enc : StringEncoder}
    prefix (records : slice EmailRecord) (maxSizeKB : Z) d :
  ∃ chunks,
    written (SplitAndWriteJSON prefix records maxSizeKB d).2
      = written d ++ chunkFiles prefix 1 chunks ∧
    concat chunks `prefix_of` elems records ∧
    Forall (withinLimit (maxSizeOf maxSizeKB)) chunks ∧
    ((GoInt.min_int ≤ maxSizeKB * 1024)%Z → Forall (withinLimit (maxSizeKB * 1024)) chunks) ∧
    ((SplitAndWriteJSON prefix records maxSizeKB d).1 = Ok tt →
       concat chunks = elems records ∧
       ∀ r, r ∈ elems records → (maxSizeOf maxSizeKB < jsonSize [r])%Z → [r] ∈ chunks).
Proof.
  destruct (SplitAndWriteJSON_spec prefix records maxSizeKB d)
    as (chunks & o & d' & Hrun & _ & Hlog & Hadm & Hpre & Hout).
  exists chunks. rewrite Hrun. simpl.
  split; [done|]. split; [done|]. split; [|split].
  - eapply Forall_impl; [exact Hadm|]. by intros chunk [_ ?].
  - intros Hmin.
    assert (maxSizeOf maxSizeKB ≤ maxSizeKB * 1024)%Z as Hle by by apply wrap_le.
    eapply Forall_impl; [exact Hadm|]. intros chunk [_ [Hfit|(r & -> & Hbig)]].
    + left. lia.
    + destruct (Z_le_gt_dec (jsonSize [r]) (maxSizeKB * 1024)); [by left|].
      right. exists r. split; [done|lia].
  - intros ->. destruct Hout as [[_ Hcat]|[? _]]; [|done].
    split; [done|]. intros r Hr Hbig. rewrite <- Hcat in Hr.
    apply list_elem_of_In, in_concat in Hr as (chunk & Hchunk & Hin).
    apply list_elem_of_In in Hchunk, Hin.
    pose proof (proj1 (Forall_forall _ _) Hadm chunk Hchunk) as [_ [Hfit|(r' & -> & _)]].
    + pose proof (jsonSize_elem_of r chunk Hin). lia.
    + by apply list_elem_of_singleton in Hin as ->.
Qed.

Lemma chunk_files_within_limit_witness :
  ∃ chunks,
    written (@SplitAndWriteJSON quotePlain "learn"
               (SliceOf [sampleRecord "1" true; sampleRecord "2" false; sampleRecord "3" false])
               1 allWritable).2
      = written allWritable ++ @chunkFiles quotePlain "learn" 1 chunks ∧
    Forall (@withinLimit quotePlain (maxSizeOf 1)) chunks ∧
    Forall (@withinLimit quotePlain (1 * 1024)) chunks ∧
    concat chunks = [sampleRecord "1" true; sampleRecord "2" false; sampleRecord "3" false].
Proof.
  destruct (@chunk_files_within_limit quotePlain "learn"
              (SliceOf [sampleRecord "1" true; sampleRecord "2" false; sampleRecord "3" false])
              1 allWritable) as (chunks & Hlog & _ & Hcode & Hint & Hok).
  exists chunks. split; [exact Hlog|]. split; [exact Hcode|]. split.
  - apply Hint. vm_compute. discriminate.
  - apply Hok. vm_compute. reflexivity.
Defined.

(** C2. When every write succeeds, [SplitAndWriteJSON] returns no error, its
    files are named [<prefix>_1.json], [<prefix>_2.json], ... without gaps
    (and so are pairwise distinct), the i-th file holds the JSON array of the
    i-th chunk, and the chunks concatenated in that order are exactly the
    input sequence. *)
Theorem chunk_files_cover_input `{enc : StringEncoder}
    prefix (records : slice EmailRecord) (maxSizeKB : Z) d :
  (∀ n, writable d (chunkNameOf prefix n) = true) →
  ∃ chunks d',
    SplitAndWriteJSON prefix records maxSizeKB d = (Ok tt, d') ∧
    written d' = written d ++ chunkFiles prefix 1 chunks ∧
    (∀ i chunk, chunks !! i = Some chunk →
       chunkFiles prefix 1 chunks !! i
       = Some (chunkNameOf prefix (i + 1), MarshalIndent (SliceOf chunk))) ∧
    NoDup (chunkFiles prefix 1 chunks).*1 ∧
    concat chunks = elems records.
Proof.
  intros Hw.
  destruct (SplitAndWriteJSON_spec prefix records maxSizeKB d)
    as (chunks & o & d' & Hrun & _ & Hlog & _ & _ & Hout).
  destruct Hout as [[-> Hcat]|[_ Hno]]; [|by rewrite Hw in Hno].
  exists chunks, d'. split; [done|]. split; [done|]. split; [|split; [|done]].
  - intros i chunk Hi. unfold chunkFiles. rewrite list_lookup_imap, Hi. simpl.
    by rewrite (Nat.add_comm i 1).
  - apply chunkFiles_NoDup.
Qed.

Lemma chunk_files_cover_input_witness :
  (∀ n, writable allWritable (chunkNameOf "learn" n) = true) ∧
  ∃ chunks d',
    @SplitAndWriteJSON quotePlain "learn"
      (SliceOf [sampleRecord "1" true; sampleRecord "2" false; sampleRecord "3" false])
      1 allWritable = (Ok tt, d') ∧
    written d' = written allWritable ++ @chunkFiles quotePlain "learn" 1 chunks ∧
    (∀ i chunk, chunks !! i = Some chunk →
       @chunkFiles quotePlain "learn" 1 chunks !! i
       = Some (chunkNameOf "learn" (i + 1), @MarshalIndent quotePlain _ _ (SliceOf chunk))) ∧
    NoDup (@chunkFiles quotePlain "learn" 1 chunks).*1 ∧
    concat chunks = [sampleRecord "1" true; sampleRecord "2" false; sampleRecord "3" false].
Proof.
  assert (∀ n, writable allWritable (chunkNameOf "learn" n) = true) as Hw by reflexivity.
  split; [exact Hw|].
  exact (@chunk_files_cover_input quotePlain "learn"
           (SliceOf [sampleRecord "1" true; sampleRecord "2" false; sampleRecord "3" false])
           1 allWritable Hw).
Defined.

(** C9. On an empty input, nil or allocated, [SplitAndWriteJSON] writes
    nothing and returns no error; and whatever the input and the outcome,
    every file it writes is the array of a chunk with at least one record. *)
Theorem no_empty_chunk_file `{enc : StringEncoder} prefix (maxSizeKB : Z) d :
  SplitAndWriteJSON prefix SliceNil maxSizeKB d = (Ok tt, d) ∧
  SplitAndWriteJSON prefix (SliceOf []) maxSizeKB d = (Ok tt, d) ∧
  ∀ records : slice EmailRecord, ∃ chunks,
    written (SplitAndWriteJSON prefix records maxSizeKB d).2
      = written d ++ chunkFiles prefix 1 chunks ∧
    Forall (λ chunk, 0 < length chunk) chunks.
Proof.
  split; [done|]. split; [done|]. intros records.
  destruct (SplitAndWriteJSON_spec prefix records maxSizeKB d)
    as (chunks & o & d' & Hrun & _ & Hlog & Hadm & _).
  exists chunks. rewrite Hrun. split; [done|].
  eapply Forall_impl; [exact Hadm|]. intros [|r chunk] [Hne _]; [done|simpl; lia].
Qed.

(** C8. Five records and a limit under which any two neighbouring records
    fit in one chunk but no three do: [SplitAndWriteJSON] writes exactly three
    files, holding the first two records, the next two, and the last one. *)
Theorem greedy_fill_2_2_1 `{enc : StringEncoder}
    prefix (r0 r1 r2 r3 r4 : EmailRecord) (maxSizeKB : Z) d :
  forallb (fits (maxSizeOf maxSizeKB)) (windows 2 [r0; r1; r2; r3; r4]) = true →
  forallb (λ chunk, negb (fits (maxSizeOf maxSizeKB) chunk)) (windows 3 [r0; r1; r2; r3; r4])
    = true →
  (∀ n, writable d (chunkNameOf prefix n) = true) →
  ∃ d',
    SplitAndWriteJSON prefix (SliceOf [r0; r1; r2; r3; r4]) maxSizeKB d = (Ok tt, d') ∧
    written d' = written d ++ chunkFiles prefix 1 [[r0; r1]; [r2; r3]; [r4]] ∧
    length <$> [[r0; r1]; [r2; r3]; [r4]] = [2; 2; 1].
Proof.
  intros H2 H3 Hw. simpl in H2, H3. unfold fits in H2, H3.
  apply andb_prop in H2 as [F01%Z.leb_le H2]. apply andb_prop in H2 as [_ H2].
  apply andb_prop in H2 as [F23%Z.leb_le H2]. apply andb_prop in H2 as [F34%Z.leb_le _].
  apply andb_prop in H3 as [B012%negb_true_iff%Z.leb_gt H3]. apply andb_prop in H3 as [_ H3].
  apply andb_prop in H3 as [B234%negb_true_iff%Z.leb_gt _].
  set (l := [r0; r1; r2; r3; r4]). set (M := maxSizeOf maxSizeKB) in *.
  assert (jsonSize [r0] ≤ M)%Z as H0.
  { pose proof (jsonSize_elem_of r0 [r0; r1] ltac:(set_solver)). lia. }
  assert (jsonSize [r2] ≤ M)%Z as H2'.
  { pose proof (jsonSize_elem_of r2 [r2; r3] ltac:(set_solver)). lia. }
  assert (jsonSize [r4] ≤ M)%Z as H4.
  { pose proof (jsonSize_elem_of r4 [r3; r4] ltac:(set_solver)). lia. }
  assert (growChunk (S (length l)) (SliceOf l) M 0 0 = Ok 2) as G0.
  { apply growChunk_boundary; [simpl; lia..| |done].
    intros k Hk. assert (k = 0 ∨ k = 1) as [-> | ->] by lia; done. }
  assert (growChunk (S (length l)) (SliceOf l) M 2 2 = Ok 4) as G2.
  { apply growChunk_boundary; [simpl; lia..| |done].
    intros k Hk. assert (k = 2 ∨ k = 3) as [-> | ->] by lia; done. }
  assert (growChunk (S (length l)) (SliceOf l) M 4 4 = Ok 5) as G4.
  { apply growChunk_boundary; [simpl; lia..| |simpl; lia].
    intros k Hk. assert (k = 4) as -> by lia; done. }
  eexists. unfold SplitAndWriteJSON. fold M. change (len (SliceOf l)) with 5.
  rewrite (writeChunks_step prefix l M 5 1 0 2 d) by (simpl; auto with lia).
  rewrite (writeChunks_step prefix l M 4 2 2 4) by (simpl; auto with lia).
  rewrite (writeChunks_step prefix l M 3 3 4 5) by (simpl; auto with lia).
  simpl. split; [reflexivity|]. simpl. rewrite <- !app_assoc. done.
Qed.

Lemma greedy_fill_2_2_1_witness :
  forallb (@fits quotePlain (maxSizeOf 1))
    (windows 2 [sampleRecord "1" true; sampleRecord "2" false; sampleRecord "3" false;
                sampleRecord "4" true; sampleRecord "5" false]) = true ∧
  forallb (λ chunk, negb (@fits quotePlain (maxSizeOf 1) chunk))
    (windows 3 [sampleRecord "1" true; sampleRecord "2" false; sampleRecord "3" false;
                sampleRecord "4" true; sampleRecord "5" false]) = true ∧
  (∀ n, writable allWritable (chunkNameOf "learn" n) = true) ∧
  ∃ d',
    @SplitAndWriteJSON quotePlain "learn"
      (SliceOf [sampleRecord "1" true; sampleRecord "2" false; sampleRecord "3" false;
                sampleRecord "4" true; sampleRecord "5" false]) 1 allWritable = (Ok tt, d') ∧
    written d' = written allWritable
      ++ @chunkFiles quotePlain "learn" 1
           [[sampleRecord "1" true; sampleRecord "2" false];
            [sampleRecord "3" false; sampleRecord "4" true];
            [sampleRecord "5" false]] ∧
    length <$> [[sampleRecord "1" true; sampleRecord "2" false];
                [sampleRecord "3" false; sampleRecord "4" true];
                [sampleRecord "5" false]] = [2; 2; 1].
Proof.
  assert (forallb (@fits quotePlain (maxSizeOf 1))
    (windows 2 [sampleRecord "1" true; sampleRecord "2" false; sampleRecord "3" false;
                sampleRecord "4" true; sampleRecord "5" false]) = true) as H2
    by (vm_compute; reflexivity).
  assert (forallb (λ chunk, negb (@fits quotePlain (maxSizeOf 1) chunk))
    (windows 3 [sampleRecord "1" true; sampleRecord "2" false; sampleRecord "3" false;
                sampleRecord "4" true; sampleRecord "5" false]) = true) as H3
    by (vm_compute; reflexivity).
  assert (∀ n, writable allWritable (chunkNameOf "learn" n) = true) as Hw by reflexivity.
  split; [exact H2|]. split; [exact H3|]. split; [exact Hw|].
  exact (@greedy_fill_2_2_1 quotePlain "learn" _ _ _ _ _ 1 allWritable H2 H3 Hw).
Defined.

(** ** The partitioner *)

Lemma contains_elem_of (l : list nat) (i : nat) : contains l i = true ↔ i ∈ l.
Proof.
  induction l as [|v l IH]; simpl.
  - split; [done|]. by intros ?%elem_of_nil.
  - destruct (Nat.eqb_spec v i) as [->|Hne].
    + split; [intros _; left|done].
    + rewrite IH. split; [by right|]. intros [?|?]%elem_of_cons; [congruence|done].
Qed.

Lemma contains_not_elem_of (l : list nat) (i : nat) : contains l i = false ↔ i ∉ l.
Proof. rewrite <- contains_elem_of. by destruct (contains l i). Qed.

Lemma membersAt_cons {A} (l : list A) i r (rest : list nat) :
  l !! i = Some r → membersAt l (i :: rest) = r :: membersAt l rest.
Proof. intros Hr. unfold membersAt. simpl. by rewrite Hr. Qed.

Lemma membersAt_length {A} (l : list A) (idx : list nat) :
  Forall (λ i, i < length l) idx → length (membersAt l idx) = length idx.
Proof.
  induction 1 as [|i idx Hi _ IH]; [done|].
  destruct (lookup_lt_is_Some_2 l i Hi) as [r Hr].
  rewrite (membersAt_cons _ _ _ _ Hr). simpl. by rewrite IH.
Qed.

Lemma filter_seq_cons (p : nat → bool) i n :
  filter (λ j, p j) (seq i (S n))
  = if p i then i :: filter (λ j, p j) (seq (S i) n) else filter (λ j, p j) (seq (S i) n).
Proof.
  simpl. rewrite filter_cons. destruct (p i); by case_decide.
Qed.

Lemma filter_seq_sorted (p : nat → bool) i n :
  StronglySorted lt (filter (λ j, p j) (seq i n)).
Proof.
  revert i. induction n as [|n IH]; intros i; [constructor|].
  rewrite filter_seq_cons. destruct (p i); [|apply IH].
  constructor; [apply IH|]. apply Forall_forall. intros j Hj.
  apply list_elem_of_filter in Hj as [_ Hj]. apply elem_of_seq in Hj. lia.
Qed.

Lemma positions_elem_of (p : nat → bool) n i : i ∈ positions p n ↔ i < n ∧ p i = true.
Proof.
  unfold positions. rewrite list_elem_of_filter, elem_of_seq, Is_true_true. intuition lia.
Qed.

Lemma positions_NoDup (p : nat → bool) n : NoDup (positions p n).
Proof. apply NoDup_filter, NoDup_seq. Qed.

Lemma positions_bounded (p : nat → bool) n : Forall (λ i, i < n) (positions p n).
Proof. apply Forall_forall. by intros i [? _]%positions_elem_of. Qed.

(** The [range] loop appends to each subset the records at its positions,
    by increasing position. *)
Lemma distribute_spec (l : list EmailRecord) trainIndices testIndices rest i a b c :
  drop i l = rest →
  distribute trainIndices testIndices i rest (SliceOf a, SliceOf b, SliceOf c)
  = (SliceOf (a ++ membersAt l (filter (λ j, toTrain trainIndices j) (seq i (length rest)))),
     SliceOf (b ++ membersAt l
                     (filter (λ j, toTest trainIndices testIndices j) (seq i (length rest)))),
     SliceOf (c ++ membersAt l
                     (filter (λ j, toLearn trainIndices testIndices j) (seq i (length rest))))).
Proof.
  revert i a b c. induction rest as [|r rest IH]; intros i a b c Hdrop.
  - simpl. by rewrite !app_nil_r.
  - assert (l !! i = Some r) as Hr.
    { rewrite <- (Nat.add_0_r i), <- lookup_drop, Hdrop. done. }
    assert (drop (S i) l = rest) as Hdrop'.
    { rewrite (drop_S _ _ _ Hr) in Hdrop. by injection Hdrop. }
    cbn [distribute length]. rewrite !filter_seq_cons.
    unfold toTrain, toTest, toLearn, append.
    destruct (contains trainIndices i), (contains testIndices i); simpl;
      rewrite (IH _ _ _ _ Hdrop'), ?Hr, <- ?app_assoc; reflexivity.
Qed.

Lemma SplitData_ok Perm (records : slice EmailRecord) a b trainIndices testIndices :
  (GoInt.add a b < Z.of_nat (len records))%Z →
  drawIndices Perm (len records) a b = Some (trainIndices, testIndices) →
  SplitData Perm records a b
  = Ok (SliceOf (membersAt (elems records) (positions (toTrain trainIndices) (len records))),
        SliceOf (membersAt (elems records)
                   (positions (toTest trainIndices testIndices) (len records))),
        SliceOf (membersAt (elems records)
                   (positions (toLearn trainIndices testIndices) (len records)))).
Proof.
  intros Hguard Hdraw. unfold SplitData.
  destruct (Z.leb_spec (Z.of_nat (len records)) (GoInt.add a b)); [lia|].
  rewrite Hdraw. unfold make.
  by rewrite (distribute_spec (elems records) _ _ (elems records) 0 [] [] []).
Qed.

Lemma resliceZ_alloc {A} (l : list A) (lo hi : Z) :
  (0 ≤ lo)%Z → (lo ≤ hi)%Z → (hi ≤ Z.of_nat (length l))%Z →
  resliceZ (SliceOf l) lo hi = Some (SliceOf (window l (Z.to_nat lo) (Z.to_nat hi))).
Proof.
  intros H0 H1 H2. unfold resliceZ. change (len (SliceOf l)) with (length l).
  destruct (Z.leb_spec 0 lo); [|lia]. destruct (Z.leb_spec lo hi); [|lia].
  destruct (Z.leb_spec hi (Z.of_nat (length l))); [|lia]. simpl.
  apply reslice_alloc; lia.
Qed.

Lemma resliceZ_Some {A} (s : slice A) (lo hi : Z) s' :
  resliceZ s lo hi = Some s' → (0 ≤ lo ∧ lo ≤ hi ∧ hi ≤ Z.of_nat (len s))%Z.
Proof.
  unfold resliceZ.
  destruct (Z.leb_spec 0 lo), (Z.leb_spec lo hi), (Z.leb_spec hi (Z.of_nat (len s)));
    simpl; intros ?; (done || lia).
Qed.

(** For non-negative counts whose sum is a Go int and at most the length of
    the permutation, the two segments are the first [trainCount] entries of
    the permutation and the [testCount] entries after them. *)
Lemma drawIndices_in_range Perm n (a b : Z) :
  (0 ≤ a)%Z → (0 ≤ b)%Z → (a + b ≤ Z.of_nat n)%Z → GoInt.representable (a + b) →
  length (Perm n) = n →
  drawIndices Perm n a b
  = Some (take (Z.to_nat a) (Perm n), take (Z.to_nat b) (drop (Z.to_nat a) (Perm n))).
Proof.
  intros Ha Hb Hab Hrep Hlen. unfold drawIndices, GoInt.add.
  rewrite wrap_exact by done.
  rewrite !resliceZ_alloc by lia. simpl. unfold window.
  rewrite Nat.sub_0_r, drop_0. do 3 f_equal. lia.
Qed.

Lemma in_take_drop {A} (l : list A) k x : x ∈ take k l ∨ x ∈ drop k l → x ∈ l.
Proof. rewrite <- (take_drop k l) at 3. by rewrite elem_of_app. Qed.

Lemma partition_lengths trainIndices testIndices i n :
  length (filter (λ j, toTrain trainIndices j) (seq i n))
  + length (filter (λ j, toTest trainIndices testIndices j) (seq i n))
  + length (filter (λ j, toLearn trainIndices testIndices j) (seq i n)) = n.
Proof.
  revert i. induction n as [|n IH]; intros i; [done|].
  rewrite !filter_seq_cons. specialize (IH (S i)). unfold toTrain, toTest, toLearn in *.
  destruct (contains trainIndices i), (contains testIndices i); simpl; lia.
Qed.

(** A duplicate-free list of positions below [n] is, up to order, the
    positions below [n] that it contains. *)
Lemma positions_of_NoDup (p : nat → bool) (idx : list nat) n :
  NoDup idx → (∀ i, i ∈ idx → i < n) → (∀ i, i < n → (p i = true ↔ i ∈ idx)) →
  positions p n ≡ₚ idx.
Proof.
  intros Hnd Hlt Hp. apply NoDup_Permutation; [apply positions_NoDup|done|].
  intros i. rewrite positions_elem_of. split.
  - intros [Hi Hpi]. by apply Hp.
  - intros Hi. split; [by apply Hlt|]. apply Hp; [by apply Hlt|done].
Qed.

(** What [SplitData] returns on valid input. *)
Lemma SplitData_valid Perm (records : slice EmailRecord) (a b : Z) :
  (0 ≤ a)%Z → (0 ≤ b)%Z → (a + b < Z.of_nat (len records))%Z →
  GoInt.representable (a + b) →
  Perm (len records) ≡ₚ seq 0 (len records) →
  let trainIndices := take (Z.to_nat a) (Perm (len records)) in
  let testIndices := take (Z.to_nat b) (drop (Z.to_nat a) (Perm (len records))) in
  let inTrain := positions (toTrain trainIndices) (len records) in
  let inTest := positions (toTest trainIndices testIndices) (len records) in
  let inLearn := positions (toLearn trainIndices testIndices) (len records) in
  SplitData Perm records a b
  = Ok (SliceOf (membersAt (elems records) inTrain),
        SliceOf (membersAt (elems records) inTest),
        SliceOf (membersAt (elems records) inLearn)) ∧
  length inTrain = Z.to_nat a ∧ length inTest = Z.to_nat b ∧
  length inLearn = len records - Z.to_nat a - Z.to_nat b.
Proof.
  intros Ha Hb Hab Hrep Hperm. set (n := len records) in *. set (P := Perm n) in *.
  intros trainIndices testIndices inTrain inTest inLearn.
  assert (length P = n) as Hlen by by rewrite Hperm, length_seq.
  assert (NoDup P) as HndP by (rewrite Hperm; apply NoDup_seq).
  assert (∀ i, i ∈ P → i < n) as HltP.
  { intros i Hi. rewrite Hperm in Hi. apply elem_of_seq in Hi. lia. }
  assert (NoDup trainIndices) as Hnd1 by (eapply sublist_NoDup; [done|apply sublist_take]).
  assert (NoDup testIndices) as Hnd2.
  { apply (sublist_NoDup _ (drop (Z.to_nat a) P)); [|apply sublist_take].
    apply (sublist_NoDup _ P); [done|apply sublist_drop]. }
  assert (∀ i, i ∈ trainIndices → i ∈ P) as Hin1.
  { intros i Hi. apply (in_take_drop P (Z.to_nat a)). by left. }
  assert (∀ i, i ∈ testIndices → i ∈ drop (Z.to_nat a) P) as Hin2'.
  { intros i Hi. apply (in_take_drop (drop (Z.to_nat a) P) (Z.to_nat b)). by left. }
  assert (∀ i, i ∈ testIndices → i ∈ P) as Hin2.
  { intros i Hi. apply (in_take_drop P (Z.to_nat a)). right. by apply Hin2'. }
  assert (∀ i, i ∈ testIndices → i ∉ trainIndices) as Hdisj.
  { intros i Hi2 Hi1. rewrite <- (take_drop (Z.to_nat a) P) in HndP.
    apply NoDup_app in HndP as (_ & Hd & _). by apply (Hd i Hi1), Hin2'. }
  assert (inTrain ≡ₚ trainIndices) as Hp1.
  { apply positions_of_NoDup; [done|by auto|]. intros i _. apply contains_elem_of. }
  assert (inTest ≡ₚ testIndices) as Hp2.
  { apply positions_of_NoDup; [done|by auto|]. intros i _. unfold toTest.
    rewrite andb_true_iff, negb_true_iff, contains_not_elem_of, contains_elem_of.
    split; [tauto|]. intros Hi. split; [by apply Hdisj|done]. }
  assert (length inTrain = Z.to_nat a) as Hl1.
  { rewrite Hp1. subst trainIndices. rewrite length_take. lia. }
  assert (length inTest = Z.to_nat b) as Hl2.
  { rewrite Hp2. subst testIndices. rewrite length_take, length_drop. lia. }
  split; [|split; [done|split; [done|]]].
  - apply SplitData_ok.
    + unfold GoInt.add. rewrite wrap_exact by done. done.
    + apply drawIndices_in_range; [done|done|lia|done|done].
  - pose proof (partition_lengths trainIndices testIndices 0 n) as Hsum.
    fold (positions (toTrain trainIndices) n) in Hsum.
    fold (positions (toTest trainIndices testIndices) n) in Hsum.
    fold (positions (toLearn trainIndices testIndices) n) in Hsum.
    fold inTrain inTest inLearn in Hsum. lia.
Qed.

Example SplitData_equal_counts :
  SplitData reversed fiveRecords 3 2 = Err (InsufficientDataError 3 2 5).
Proof. reflexivity. Qed.

Example SplitData_negative_count : SplitData reversed fiveRecords (-1) 2 = Panic.
Proof. reflexivity. Qed.

(** ** Claims about the partitioner *)

Lemma reversed_Permutation n : reversed n ≡ₚ seq 0 n.
Proof. unfold reversed. symmetry. apply Permutation_rev. Qed.

(** C4. For non-negative counts with [trainCount + testCount] below the
    number of records (a Go int), and a permutation drawn by the random
    source, [SplitData] succeeds; its three subsets are the records at three
    sets of positions that are pairwise disjoint and together are all the
    positions of the dataset; the training subset has exactly [trainCount]
    records and the testing subset exactly [testCount]. *)
Theorem partition_is_exact Perm (records : slice EmailRecord) (a b : Z) :
  (0 ≤ a)%Z → (0 ≤ b)%Z → (a + b < Z.of_nat (len records))%Z →
  (Z.of_nat (len records) ≤ GoInt.max_int)%Z →
  Perm (len records) ≡ₚ seq 0 (len records) →
  ∃ (inTrain inTest inLearn : list nat) trainSet testSet learnSet,
    SplitData Perm records a b = Ok (trainSet, testSet, learnSet) ∧
    elems trainSet = membersAt (elems records) inTrain ∧
    elems testSet = membersAt (elems records) inTest ∧
    elems learnSet = membersAt (elems records) inLearn ∧
    NoDup inTrain ∧ NoDup inTest ∧ NoDup inLearn ∧
    (list_to_set inTrain : gset nat) ## list_to_set inTest ∧
    (list_to_set inTrain : gset nat) ## list_to_set inLearn ∧
    (list_to_set inTest : gset nat) ## list_to_set inLearn ∧
    (list_to_set inTrain ∪ list_to_set inTest ∪ list_to_set inLearn : gset nat)
      = set_seq 0 (len records) ∧
    length inTrain = len trainSet ∧ length inTest = len testSet ∧
    length inLearn = len learnSet ∧
    Z.of_nat (len trainSet) = a ∧ Z.of_nat (len testSet) = b.
Proof.
  intros Ha Hb Hab Hn Hperm.
  assert (GoInt.representable (a + b)) as Hrep.
  { unfold GoInt.representable, GoInt.min_int. lia. }
  destruct (SplitData_valid Perm records a b Ha Hb Hab Hrep Hperm) as (Hrun & Hl1 & Hl2 & Hl3).
  set (trainIndices := take (Z.to_nat a) (Perm (len records))) in *.
  set (testIndices := take (Z.to_nat b) (drop (Z.to_nat a) (Perm (len records)))) in *.
  set (n := len records) in *.
  eexists (positions (toTrain trainIndices) n), (positions (toTest trainIndices testIndices) n),
    (positions (toLearn trainIndices testIndices) n), _, _, _.
  split; [exact Hrun|]. simpl.
  assert (∀ p, length (membersAt (elems records) (positions p n)) = length (positions p n))
    as Hlen by (intros p; apply membersAt_length, positions_bounded).
  repeat split; try apply positions_NoDup; unfold len; simpl; rewrite ?Hlen; try done; try lia.
  - intros i [_ H1]%elem_of_list_to_set%positions_elem_of
             [_ H2]%elem_of_list_to_set%positions_elem_of.
    unfold toTrain, toTest in *. destruct (contains trainIndices i); done.
  - intros i [_ H1]%elem_of_list_to_set%positions_elem_of
             [_ H2]%elem_of_list_to_set%positions_elem_of.
    unfold toTrain, toLearn in *. destruct (contains trainIndices i); done.
  - intros i [_ H1]%elem_of_list_to_set%positions_elem_of
             [_ H2]%elem_of_list_to_set%positions_elem_of.
    unfold toTest, toLearn in *.
    destruct (contains trainIndices i), (contains testIndices i); done.
  - apply set_eq. intros i.
    rewrite !elem_of_union, !elem_of_list_to_set, !positions_elem_of, elem_of_set_seq.
    unfold toTrain, toTest, toLearn.
    destruct (contains trainIndices i), (contains testIndices i); simpl; intuition lia.
Qed.

Lemma partition_is_exact_witness :
  (0 ≤ 2)%Z ∧ (0 ≤ 1)%Z ∧ (2 + 1 < Z.of_nat (len fiveRecords))%Z ∧
  (Z.of_nat (len fiveRecords) ≤ GoInt.max_int)%Z ∧
  reversed (len fiveRecords) ≡ₚ seq 0 (len fiveRecords) ∧
  ∃ (inTrain inTest inLearn : list nat) trainSet testSet learnSet,
    SplitData reversed fiveRecords 2 1 = Ok (trainSet, testSet, learnSet) ∧
    elems trainSet = membersAt (elems fiveRecords) inTrain ∧
    elems testSet = membersAt (elems fiveRecords) inTest ∧
    elems learnSet = membersAt (elems fiveRecords) inLearn ∧
    NoDup inTrain ∧ NoDup inTest ∧ NoDup inLearn ∧
    (list_to_set inTrain : gset nat) ## list_to_set inTest ∧
    (list_to_set inTrain : gset nat) ## list_to_set inLearn ∧
    (list_to_set inTest : gset nat) ## list_to_set inLearn ∧
    (list_to_set inTrain ∪ list_to_set inTest ∪ list_to_set inLearn : gset nat)
      = set_seq 0 (len fiveRecords) ∧
    length inTrain = len trainSet ∧ length inTest = len testSet ∧
    length inLearn = len learnSet ∧
    Z.of_nat (len trainSet) = 2%Z ∧ Z.of_nat (len testSet) = 1%Z.
Proof.
  assert (0 ≤ 2)%Z as Ha by lia. assert (0 ≤ 1)%Z as Hb by lia.
  assert (2 + 1 < Z.of_nat (len fiveRecords))%Z as Hab by (vm_compute; reflexivity).
  assert (Z.of_nat (len fiveRecords) ≤ GoInt.max_int)%Z as Hn by (vm_compute; discriminate).
  pose proof (reversed_Permutation (len fiveRecords)) as Hperm.
  split; [exact Ha|]. split; [exact Hb|]. split; [exact Hab|]. split; [exact Hn|].
  split; [exact Hperm|].
  exact (partition_is_exact reversed fiveRecords 2 1 Ha Hb Hab Hn Hperm).
Defined.

(** C5, as the code has it.  When [trainCount + testCount] is itself a Go int
    (the addition does not overflow), [SplitData] fails with the
    insufficient-data error exactly when [trainCount + testCount] is at least
    the number of records; and for non-negative counts with
    [trainCount + testCount] one less than the number of records it succeeds
    with a learning subset of exactly one record. *)
Theorem insufficient_data_guard Perm (records : slice EmailRecord) (a b : Z) :
  GoInt.representable (a + b) →
  (is_insufficient (SplitData Perm records a b) = true
     ↔ (Z.of_nat (len records) ≤ a + b)%Z) ∧
  ((0 ≤ a)%Z → (0 ≤ b)%Z → Perm (len records) ≡ₚ seq 0 (len records) →
   (a + b = Z.of_nat (len records) - 1)%Z →
   ∃ trainSet testSet learnSet,
     SplitData Perm records a b = Ok (trainSet, testSet, learnSet) ∧ len learnSet = 1).
Proof.
  intros Hrep. split.
  - unfold SplitData, GoInt.add. rewrite wrap_exact by done.
    destruct (Z.leb_spec (Z.of_nat (len records)) (a + b)) as [Hle|Hlt]; simpl.
    + done.
    + split; [|lia]. by destruct (drawIndices _ _ _ _) as [[? ?]|].
  - intros Ha Hb Hperm Hab.
    destruct (SplitData_valid Perm records a b Ha Hb ltac:(lia) Hrep Hperm)
      as (Hrun & _ & _ & Hl3).
    do 3 eexists. split; [exact Hrun|]. unfold len at 1. simpl.
    rewrite membersAt_length by apply positions_bounded. rewrite Hl3. lia.
Qed.

Lemma insufficient_data_guard_witness :
  GoInt.representable (2 + 2) ∧
  (is_insufficient (SplitData reversed fiveRecords 2 2) = true
     ↔ (Z.of_nat (len fiveRecords) ≤ 2 + 2)%Z) ∧
  ∃ trainSet testSet learnSet,
    SplitData reversed fiveRecords 2 2 = Ok (trainSet, testSet, learnSet) ∧ len learnSet = 1.
Proof.
  assert (GoInt.representable (2 + 2)) as Hrep by (split; vm_compute; discriminate).
  destruct (insufficient_data_guard reversed fiveRecords 2 2 Hrep) as [Hiff Hedge].
  split; [exact Hrep|]. split; [exact Hiff|].
  apply Hedge; [lia|lia|apply reversed_Permutation|vm_compute; reflexivity].
Defined.

(** C5 as stated fails where the addition overflows: with one record and both
    counts equal to 2^62, [trainCount + testCount] is 2^63, far above the
    number of records, and yet the guard, computing in 64 bits, lets the call
    through; it then panics on [randomIndices[:trainCount]] instead of
    returning the insufficient-data error. *)
Lemma insufficient_data_guard_overflow :
  (0 ≤ 2 ^ 62)%Z ∧
  (Z.of_nat (len (SliceOf [shortRecord "1" true])) ≤ 2 ^ 62 + 2 ^ 62)%Z ∧
  GoInt.add (2 ^ 62) (2 ^ 62) = (- 2 ^ 63)%Z ∧
  SplitData (seq 0) (SliceOf [shortRecord "1" true]) (2 ^ 62) (2 ^ 62) = Panic ∧
  is_insufficient (SplitData (seq 0) (SliceOf [shortRecord "1" true]) (2 ^ 62) (2 ^ 62)) = false.
Proof. repeat split; vm_compute; (reflexivity || discriminate). Qed.

(** A successful [SplitData] passed the guard, drew its two segments without
    panic, and returns three allocated slices. *)
Lemma SplitData_Ok_inv Perm (records : slice EmailRecord) (a b : Z) trainSet testSet learnSet :
  SplitData Perm records a b = Ok (trainSet, testSet, learnSet) →
  ∃ trainIndices testIndices,
    drawIndices Perm (len records) a b = Some (trainIndices, testIndices) ∧
    trainSet = SliceOf (membersAt (elems records)
                          (positions (toTrain trainIndices) (len records))) ∧
    testSet = SliceOf (membersAt (elems records)
                         (positions (toTest trainIndices testIndices) (len records))) ∧
    learnSet = SliceOf (membersAt (elems records)
                          (positions (toLearn trainIndices testIndices) (len records))).
Proof.
  intros Hrun.
  assert (GoInt.add a b < Z.of_nat (len records))%Z as Hguard.
  { unfold SplitData in Hrun.
    by destruct (Z.leb_spec (Z.of_nat (len records)) (GoInt.add a b)). }
  destruct (drawIndices Perm (len records) a b) as [[trainIndices testIndices]|] eqn:Hdraw.
  2: { unfold SplitData in Hrun. rewrite Hdraw in Hrun.
       by destruct (Z.leb_spec (Z.of_nat (len records)) (GoInt.add a b)). }
  rewrite (SplitData_ok _ _ _ _ _ _ Hguard Hdraw) in Hrun. injection Hrun as <- <- <-.
  by exists trainIndices, testIndices.
Qed.

(** C6. Whenever [SplitData] succeeds, each subset is the records at a
    strictly increasing list of positions of the dataset, so its members keep
    the order they have in the dataset; the two segments of the permutation
    only decide which positions go where: a position goes to the training
    subset if the first segment contains it, else to the testing subset if the
    second segment contains it, else to the learning subset. *)
Theorem subsets_in_dataset_order Perm (records : slice EmailRecord) (a b : Z)
    trainSet testSet learnSet :
  SplitData Perm records a b = Ok (trainSet, testSet, learnSet) →
  ∃ trainIndices testIndices (inTrain inTest inLearn : list nat),
    drawIndices Perm (len records) a b = Some (trainIndices, testIndices) ∧
    trainSet = SliceOf (membersAt (elems records) inTrain) ∧
    testSet = SliceOf (membersAt (elems records) inTest) ∧
    learnSet = SliceOf (membersAt (elems records) inLearn) ∧
    StronglySorted lt inTrain ∧ StronglySorted lt inTest ∧ StronglySorted lt inLearn ∧
    (∀ i, i ∈ inTrain ↔ i < len records ∧ i ∈ trainIndices) ∧
    (∀ i, i ∈ inTest ↔ i < len records ∧ (i ∉ trainIndices) ∧ i ∈ testIndices) ∧
    (∀ i, i ∈ inLearn ↔ i < len records ∧ (i ∉ trainIndices) ∧ i ∉ testIndices).
Proof.
  intros (trainIndices & testIndices & Hdraw & -> & -> & ->)%SplitData_Ok_inv.
  exists trainIndices, testIndices. do 3 eexists. split; [done|].
  split; [done|]. split; [done|]. split; [done|].
  split; [apply filter_seq_sorted|]. split; [apply filter_seq_sorted|].
  split; [apply filter_seq_sorted|].
  split; [|split]; intros i; rewrite positions_elem_of;
    unfold toTrain, toTest, toLearn;
    rewrite ?andb_true_iff, ?negb_true_iff, ?contains_not_elem_of, ?contains_elem_of; tauto.
Qed.

Lemma subsets_in_dataset_order_witness :
  SplitData reversed fiveRecords 2 1
    = Ok (SliceOf [shortRecord "4" true; shortRecord "5" false],
          SliceOf [shortRecord "3" false],
          SliceOf [shortRecord "1" true; shortRecord "2" false]) ∧
  ∃ trainIndices testIndices (inTrain inTest inLearn : list nat),
    drawIndices reversed (len fiveRecords) 2 1 = Some (trainIndices, testIndices) ∧
    SliceOf [shortRecord "4" true; shortRecord "5" false]
      = SliceOf (membersAt (elems fiveRecords) inTrain) ∧
    SliceOf [shortRecord "3" false] = SliceOf (membersAt (elems fiveRecords) inTest) ∧
    SliceOf [shortRecord "1" true; shortRecord "2" false]
      = SliceOf (membersAt (elems fiveRecords) inLearn) ∧
    StronglySorted lt inTrain ∧ StronglySorted lt inTest ∧ StronglySorted lt inLearn ∧
    (∀ i, i ∈ inTrain ↔ i < len fiveRecords ∧ i ∈ trainIndices) ∧
    (∀ i, i ∈ inTest ↔ i < len fiveRecords ∧ (i ∉ trainIndices) ∧ i ∈ testIndices) ∧
    (∀ i, i ∈ inLearn ↔ i < len fiveRecords ∧ (i ∉ trainIndices) ∧ i ∉ testIndices).
Proof.
  assert (SplitData reversed fiveRecords 2 1
    = Ok (SliceOf [shortRecord "4" true; shortRecord "5" false],
          SliceOf [shortRecord "3" false],
          SliceOf [shortRecord "1" true; shortRecord "2" false])) as Hrun by reflexivity.
  split; [exact Hrun|].
  exact (subsets_in_dataset_order reversed fiveRecords 2 1 _ _ _ Hrun).
Defined.

(** ** The loader *)

Lemma readRecords_wellformed (k : nat) (rows : list (list string)) fuel acc :
  3 ≤ k → Forall (λ row, length row = k) rows → length rows < fuel →
  ∃ out recs,
    readRecords fuel {| FieldsPerRecord := Z.of_nat k; pending := rows |} acc = Ok out ∧
    elems out = elems acc ++ recs ∧ Forall2 builtFrom rows recs.
Proof.
  intros Hk Hrows. revert fuel acc.
  induction Hrows as [|row rows Hrow _ IH]; intros fuel acc Hfuel;
    (destruct fuel as [|fuel]; [simpl in Hfuel; lia|]).
  - exists acc, []. simpl. rewrite app_nil_r. by repeat split.
  - cbn [readRecords]. unfold Read. cbn [pending FieldsPerRecord].
    destruct (Z.ltb_spec 0 (Z.of_nat k)); [|lia].
    destruct (Z.eqb_spec (Z.of_nat (length row)) (Z.of_nat k)); [|lia].
    destruct row as [|c0 [|c1 [|c2 row]]]; simpl in Hrow; [lia..|]. cbn [lookup list_lookup].
    edestruct (IH fuel) as (out & recs & Hrun & Hout & Hall); [simpl in Hfuel; lia|].
    exists out. eexists (_ :: recs). split; [exact Hrun|].
    split; [by rewrite Hout; simpl; rewrite <- app_assoc|].
    constructor; [|done]. repeat split. exists c2. split; [done|]. simpl.
    by rewrite bool_decide_eq_true.
Qed.

(** The record loop never reports a malformed record: the only errors [Read]
    returns are [io.EOF] and a [*csv.ParseError], and neither is identical to
    the sentinel the loop compares with. *)
Lemma readRecords_no_record_error fuel csvReader acc :
  readRecords fuel csvReader acc ≠ Err ReadRecordError.
Proof.
  revert csvReader acc. induction fuel as [|fuel IH]; intros [k rows] acc; [done|].
  cbn [readRecords]. unfold Read. cbn [pending FieldsPerRecord].
  destruct rows as [|row rows]; [done|].
  destruct (0 <? k)%Z; [destruct (Z.of_nat (length row) =? k)%Z|destruct (k =? 0)%Z];
    try done; destruct (row !! 0), (row !! 1), (row !! 2); try done; apply IH.
Qed.

Lemma ReadCSV_no_record_error csvFiles filename :
  ReadCSV csvFiles filename ≠ Err ReadRecordError.
Proof.
  unfold ReadCSV. destruct (csvFiles filename) as [file|]; [|done].
  destruct (Read (NewReader file)) as [[? [?|]] ?]; [done|].
  apply readRecords_no_record_error.
Qed.

(** The fuel [ReadCSV] gives the record loop is enough. *)
Lemma readRecords_enough_fuel fuel csvReader acc :
  length (pending csvReader) < fuel → readRecords fuel csvReader acc ≠ OutOfFuel.
Proof.
  revert csvReader acc. induction fuel as [|fuel IH]; intros [k rows] acc Hfuel;
    [simpl in Hfuel; lia|].
  cbn [readRecords]. unfold Read. cbn [pending FieldsPerRecord] in *.
  destruct rows as [|row rows]; [done|]. simpl in Hfuel.
  destruct (0 <? k)%Z; [destruct (Z.of_nat (length row) =? k)%Z|destruct (k =? 0)%Z];
    try done; destruct (row !! 0), (row !! 1), (row !! 2); try done;
    apply IH; simpl; lia.
Qed.

Lemma ReadCSV_enough_fuel csvFiles filename : ReadCSV csvFiles filename ≠ OutOfFuel.
Proof.
  unfold ReadCSV. destruct (csvFiles filename) as [file|]; [|done].
  destruct (Read (NewReader file)) as [[? [?|]] ?]; [done|].
  apply readRecords_enough_fuel. lia.
Qed.

(** End of input right after the header: no record, nil slice, nil error. *)
Example ReadCSV_header_only :
  ReadCSV (λ _, Some [["id"; "email"; "label"]]) csvFileName = Ok SliceNil.
Proof. reflexivity. Qed.

Example ReadCSV_empty_file : ReadCSV (λ _, Some []) csvFileName = Err ReadHeaderError.
Proof. reflexivity. Qed.

(** C3, at a row with the wrong column count.  The file has a three-column
    header, a good row, a two-column row and another good row.  [ReadCSV]
    returns the first record and a nil error: the loop takes the two-column
    row for the end of the input, because the error [Read] returns for it is a
    [*csv.ParseError] wrapping [csv.ErrFieldCount], not [csv.ErrFieldCount]
    itself.  The specification asks for a fatal malformed-record error. *)
Theorem short_row_is_not_rejected :
  ReadCSV (λ _, Some shortRowFile) csvFileName
  = Ok (SliceOf [{| ID := "1"; Email := "a@x"; Result := true |}]).
Proof. reflexivity. Qed.

(** C7. For a file whose header has at least three columns and whose data
    rows all have as many columns as the header, [ReadCSV] returns one record
    per data row, in order: identifier and email are columns 0 and 1 as they
    are, and the label is true exactly when column 2 is "Phishing Email".
    Nothing else is asked of column 2, so no label makes the loader fail. *)
Theorem loader_builds_records csvFiles filename (header : list string)
    (rows : list (list string)) :
  csvFiles filename = Some (header :: rows) →
  3 ≤ length header →
  Forall (λ row, length row = length header) rows →
  ∃ records,
    ReadCSV csvFiles filename = Ok records ∧
    Forall2 builtFrom
            rows (elems records).
Proof.
  intros Hopen Hheader Hrows. unfold ReadCSV. rewrite Hopen.
  unfold Read, NewReader. cbn [pending FieldsPerRecord]. simpl.
  destruct (readRecords_wellformed (length header) rows (S (length rows)) SliceNil)
    as (out & recs & Hrun & Hout & Hall); [done|done|lia|].
  exists out. split; [exact Hrun|]. by rewrite Hout.
Qed.

Lemma loader_builds_records_witness :
  (λ _ : string, Some sampleFile) csvFileName
    = Some (["id"; "email"; "label"]
            :: [["1"; "a@x"; "Phishing Email"]; ["2"; "b@x"; "Safe Email"];
                ["3"; "c@x"; "phishing email"]]) ∧
  3 ≤ length ["id"; "email"; "label"] ∧
  Forall (λ row, length row = length ["id"; "email"; "label"])
    [["1"; "a@x"; "Phishing Email"]; ["2"; "b@x"; "Safe Email"];
     ["3"; "c@x"; "phishing email"]] ∧
  ∃ records,
    ReadCSV (λ _, Some sampleFile) csvFileName = Ok records ∧
    Forall2 builtFrom
            [["1"; "a@x"; "Phishing Email"]; ["2"; "b@x"; "Safe Email"];
             ["3"; "c@x"; "phishing email"]] (elems records).
Proof.
  assert ((λ _ : string, Some sampleFile) csvFileName
    = Some (["id"; "email"; "label"]
            :: [["1"; "a@x"; "Phishing Email"]; ["2"; "b@x"; "Safe Email"];
                ["3"; "c@x"; "phishing email"]])) as Hopen by reflexivity.
  assert (3 ≤ length ["id"; "email"; "label"]) as Hheader by (simpl; lia).
  assert (Forall (λ row, length row = length ["id"; "email"; "label"])
    [["1"; "a@x"; "Phishing Email"]; ["2"; "b@x"; "Safe Email"];
     ["3"; "c@x"; "phishing email"]]) as Hrows by (repeat constructor).
  split; [exact Hopen|]. split; [exact Hheader|]. split; [exact Hrows|].
  exact (loader_builds_records (λ _, Some sampleFile) csvFileName _ _ Hopen Hheader Hrows).
Defined.

(** ** The orchestrator's output files *)

Lemma convertAndWrite_ok `{enc : StringEncoder} {A} `{JSONStruct A}
    filename (data : slice A) d next :
  writable d filename = true →
  convertAndWrite filename data d next
  = next {| writable := writable d; written := written d ++ [(filename, MarshalIndent data)] |}.
Proof. intros Hw. unfold convertAndWrite, ConvertToJSON, WriteJSON, os_WriteFile. by rewrite Hw. Qed.

Lemma trainEmailSetOf_empty (trainSet : slice EmailRecord) :
  len trainSet = 0 → trainEmailSetOf trainSet = SliceNil.
Proof. unfold len, trainEmailSetOf. by destruct (elems trainSet). Qed.

Lemma trainResultSetOf_empty (trainSet : slice EmailRecord) :
  len trainSet = 0 → trainResultSetOf trainSet = SliceNil.
Proof. unfold len, trainResultSetOf. by destruct (elems trainSet). Qed.

(** C10. After a successful [SplitData], [main]'s writes put into the two
    training files the views of the training subset and into the testing file
    the testing subset.  If the training subset is empty, both views are still
    the nil slice and both training files hold [null]; an empty testing
    subset is an allocated slice and its file holds [[]]. *)
Theorem empty_training_views_are_null `{enc : StringEncoder}
    Perm (records : slice EmailRecord) (a b : Z) trainSet testSet learnSet (maxSizeKB : Z) d :
  SplitData Perm records a b = Ok (trainSet, testSet, learnSet) →
  writable d trainEmailJSONFileName = true →
  writable d trainResultJSONFileName = true →
  writable d testJSONFileName = true →
  ∃ trainEmailJsonData trainResultJsonData testJSONData chunks,
    ConvertToJSON (trainEmailSetOf trainSet) = Ok trainEmailJsonData ∧
    ConvertToJSON (trainResultSetOf trainSet) = Ok trainResultJsonData ∧
    ConvertToJSON testSet = Ok testJSONData ∧
    written (writeOutputs trainSet testSet learnSet maxSizeKB d).2
      = written d
        ++ [(trainEmailJSONFileName, trainEmailJsonData);
            (trainResultJSONFileName, trainResultJsonData);
            (testJSONFileName, testJSONData)]
        ++ chunkFiles learnJSONFilePrefix 1 chunks ∧
    (len trainSet = 0 →
       trainEmailSetOf trainSet = SliceNil ∧ trainResultSetOf trainSet = SliceNil ∧
       trainEmailJsonData = "null" ∧ trainResultJsonData = "null") ∧
    (len testSet = 0 → testSet = SliceOf [] ∧ testJSONData = "[]").
Proof.
  intros (trainIndices & testIndices & _ & Htrain & Htest & _)%SplitData_Ok_inv Hw1 Hw2 Hw3.
  unfold writeOutputs. rewrite !convertAndWrite_ok by done. cbn [writable written].
  match goal with |- context [SplitAndWriteJSON ?p ?r ?k ?d0] =>
    destruct (SplitAndWriteJSON_spec p r k d0)
      as (chunks & o & d' & Hrun & _ & Hlog & _); rewrite Hrun end.
  do 3 eexists. exists chunks.
  split; [reflexivity|]. split; [reflexivity|]. split; [reflexivity|].
  split; [|split].
  - cbn [snd]. rewrite Hlog. cbn [written]. by rewrite <- !app_assoc.
  - intros Hempty.
    by rewrite (trainEmailSetOf_empty _ Hempty), (trainResultSetOf_empty _ Hempty).
  - intros Hempty. rewrite Htest in Hempty |- *.
    by destruct (membersAt _ (positions (toTest _ _) _)).
Qed.

Lemma empty_training_views_are_null_witness :
  SplitData reversed fiveRecords 0 0 = Ok (SliceOf [], SliceOf [], fiveRecords) ∧
  writable allWritable trainEmailJSONFileName = true ∧
  writable allWritable trainResultJSONFileName = true ∧
  writable allWritable testJSONFileName = true ∧
  ∃ trainEmailJsonData trainResultJsonData testJSONData chunks,
    @ConvertToJSON quotePlain _ _ (trainEmailSetOf (SliceOf [])) = Ok trainEmailJsonData ∧
    @ConvertToJSON quotePlain _ _ (trainResultSetOf (SliceOf [])) = Ok trainResultJsonData ∧
    @ConvertToJSON quotePlain _ _ (SliceOf [] : slice EmailRecord) = Ok testJSONData ∧
    written (@writeOutputs quotePlain (SliceOf []) (SliceOf []) fiveRecords 1 allWritable).2
      = written allWritable
        ++ [(trainEmailJSONFileName, trainEmailJsonData);
            (trainResultJSONFileName, trainResultJsonData);
            (testJSONFileName, testJSONData)]
        ++ @chunkFiles quotePlain learnJSONFilePrefix 1 chunks ∧
    (len (SliceOf [] : slice EmailRecord) = 0 →
       trainEmailSetOf (SliceOf []) = SliceNil ∧ trainResultSetOf (SliceOf []) = SliceNil ∧
       trainEmailJsonData = "null" ∧ trainResultJsonData = "null") ∧
    (len (SliceOf [] : slice EmailRecord) = 0 →
       (SliceOf [] : slice EmailRecord) = SliceOf [] ∧ testJSONData = "[]").
Proof.
  assert (SplitData reversed fiveRecords 0 0 = Ok (SliceOf [], SliceOf [], fiveRecords))
    as Hrun by reflexivity.
  split; [exact Hrun|]. split; [reflexivity|]. split; [reflexivity|]. split; [reflexivity|].
  exact (@empty_training_views_are_null quotePlain reversed fiveRecords 0 0 _ _ _ 1 allWritable
           Hrun eq_refl eq_refl eq_refl).
Defined.

(** * Further properties *)

(** ** The chunked writer: greedy cuts, fewest files, failed writes *)

Section Chunking.
Context `{enc : StringEncoder}.

Lemma sum_list_append (a b : list nat) : sum_list (a ++ b) = sum_list a + sum_list b.
Proof. induction a as [|x a IH]; simpl; lia. Qed.

Lemma jsonSize_app (a b : list EmailRecord) :
  (jsonSize (a ++ b) = jsonSize a + jsonSize b - 2)%Z.
Proof. rewrite !jsonSize_sum, fmap_app, sum_list_append. lia. Qed.

Lemma jsonSize_at_least (chunk : list EmailRecord) : (2 ≤ jsonSize chunk)%Z.
Proof. rewrite jsonSize_sum. lia. Qed.

(** A chunk that respects the limit has no room for a run of its records
    that is over the limit. *)
Lemma no_room (M M' : Z) (pre run tail : list EmailRecord) x :
  (M ≤ M')%Z → admissible M (pre ++ run ++ x :: tail) → run ≠ [] →
  (M' < jsonSize (run ++ [x]))%Z → False.
Proof.
  intros HM [_ [Hfit|(r & Heq & _)]] Hrun Hbig.
  - replace (pre ++ run ++ x :: tail) with (pre ++ (run ++ [x]) ++ tail) in Hfit
      by by rewrite <- !app_assoc.
    rewrite !jsonSize_app in Hfit. rewrite jsonSize_app in Hbig.
    pose proof (jsonSize_at_least pre). pose proof (jsonSize_at_least tail). lia.
  - apply (f_equal length) in Heq. rewrite !length_app in Heq. simpl in Heq.
    destruct run; [done|]. simpl in Heq. lia.
Qed.

Lemma admissible_concat_nil M (chunks : list (list EmailRecord)) :
  Forall (admissible M) chunks → concat chunks = [] → chunks = [].
Proof.
  intros Hadm Hnil. destruct chunks as [|[|r c] cs]; [done| |done].
  by apply Forall_cons in Hadm as [[? _] _].
Qed.

Lemma greedy_head M chunk (chunks : list (list EmailRecord)) next tail :
  greedy M (chunk :: chunks) [] → concat chunks = next :: tail →
  (M < jsonSize (chunk ++ [next]))%Z.
Proof. intros [Hhead _] Hcat. simpl in Hhead. by rewrite app_nil_r, Hcat in Hhead. Qed.

(** Greedy cuts of one sequence under one limit are the same cuts. *)
Lemma greedy_unique M (C C' : list (list EmailRecord)) :
  Forall (admissible M) C → Forall (admissible M) C' →
  greedy M C [] → greedy M C' [] → concat C = concat C' → C = C'.
Proof.
  revert C'. induction C as [|c cs IH]; intros C' HC HC' HG HG' Hcat.
  - symmetry. by apply (admissible_concat_nil M).
  - destruct C' as [|c' cs'].
    { by apply (admissible_concat_nil M) in HC. }
    apply Forall_cons in HC as [Hc Hcs]. apply Forall_cons in HC' as [Hc' Hcs'].
    simpl in Hcat. apply app_eq_inv in Hcat as [(k & -> & Hk)|(k & -> & Hk)].
    + destruct k as [|x t].
      * rewrite app_nil_r. f_equal. apply IH; [done|done|apply HG|apply HG'|done].
      * exfalso. apply (no_room M M [] c' t x); [lia|done|by destruct Hc' as [? _]|].
        by apply (greedy_head M c' cs' x (t ++ concat cs)).
    + destruct k as [|x t].
      * rewrite app_nil_r. f_equal. apply IH; [done|done|apply HG|apply HG'|done].
      * exfalso. apply (no_room M M [] c t x); [lia|done|by destruct Hc as [? _]|].
        by apply (greedy_head M c cs x (t ++ concat cs')).
Qed.

(** Greedy cuts under a limit at least as large, started anywhere in the
    sequence, are no more numerous than any cuts that respect the smaller
    limit. *)
Lemma greedy_stays_ahead M M' (C C' : list (list EmailRecord)) pre :
  (M ≤ M')%Z → Forall (admissible M) C → Forall (admissible M') C' → greedy M' C' [] →
  concat C = pre ++ concat C' → length C' ≤ length C.
Proof.
  intros HM. revert C' pre. induction C as [|c cs IH]; intros C' pre HC HC' HG Hcat.
  - symmetry in Hcat. apply app_eq_nil in Hcat as [_ Hnil].
    by rewrite (admissible_concat_nil M' C').
  - destruct C' as [|c' cs']; [simpl; lia|].
    apply Forall_cons in HC as [Hc Hcs]. apply Forall_cons in HC' as [Hc' Hcs'].
    simpl in Hcat. rewrite app_assoc in Hcat.
    apply app_eq_inv in Hcat as [(k & Hk1 & Hk2)|(k & Hk1 & Hk2)].
    + destruct k as [|x t].
      * simpl. apply le_n_S. apply (IH cs' []); [done|done|apply HG|done].
      * exfalso. apply (no_room M M' pre c' t x); [done| |by destruct Hc' as [? _]|].
        -- by rewrite app_assoc, <- Hk1.
        -- by apply (greedy_head M' c' cs' x (t ++ concat cs)).
    + simpl. apply le_n_S. apply (IH cs' k); [done|done|apply HG|done].
Qed.

(** What a run of the outer loop leaves behind, whatever its outcome. *)
Lemma writeChunks_run prefix (l : list EmailRecord) M fuel c s d :
  s ≤ length l → length l - s < fuel →
  ∃ chunks rest o d', writeChunks fuel prefix (SliceOf l) M c s d = (o, d') ∧
    written d' = written d ++ chunkFiles prefix c chunks ∧
    concat chunks ++ rest = drop s l ∧
    Forall (admissible M) chunks ∧ greedy M chunks rest ∧
    (∀ i, i < length chunks → writable d (chunkNameOf prefix (c + i)) = true) ∧
    ((o = Ok tt ∧ rest = []) ∨
     (o = Err (WriteChunkError (chunkNameOf prefix (c + length chunks))) ∧
      writable d (chunkNameOf prefix (c + length chunks)) = false ∧ rest ≠ [])).
Proof.
  revert c s d. induction fuel as [|fuel IH]; intros c s d Hs Hf; [lia|].
  destruct (decide (s < length l)) as [Hlt|Hge].
  - destruct (growChunk_spec l M s (S (length l)) s) as (e' & Hg & Hr & Hfit & Hov);
      [lia..|].
    set (e := if (s =? e')%nat then e' + 1 else e').
    assert (s < e ∧ e ≤ length l) as [Hse Hel].
    { subst e. destruct (Nat.eqb_spec s e'); lia. }
    destruct (lookup_lt_is_Some_2 l s Hlt) as [r Hr'].
    assert (admissible M (window l s e)) as Hadm.
    { split.
      - intros Hnil. apply (f_equal length) in Hnil. rewrite window_length in Hnil by lia.
        simpl in Hnil. lia.
      - subst e. destruct (Nat.eqb_spec s e') as [<-|Hne].
        + right. exists r. rewrite (window_single _ _ _ Hr') in *. split; [done|]. by apply Hov.
        + left. replace e' with (e' - 1 + 1) by lia. apply Hfit. lia. }
    assert (∀ next tail, drop e l = next :: tail →
              (M < jsonSize (window l s e ++ [next]))%Z) as Hnext.
    { intros next tail Hdrop.
      assert (l !! e = Some next) as Hn.
      { rewrite <- (Nat.add_0_r e), <- lookup_drop, Hdrop. done. }
      assert (e < length l) as He by by eapply lookup_lt_Some.
      assert (window l s e ++ [next] = window l s (e + 1)) as ->.
      { unfold window. replace (e + 1 - s) with (S (e - s)) by lia.
        rewrite (take_S_r _ _ next); [done|]. rewrite lookup_drop. rewrite <- Hn. f_equal. lia. }
      subst e. destruct (Nat.eqb_spec s e') as [<-|Hne]; [|by apply Hov].
      pose proof (Hov Hlt) as Hbig. rewrite (window_single _ _ _ Hr') in Hbig.
      assert (r ∈ window l s (s + 1 + 1)) as Hin.
      { unfold window. replace (s + 1 + 1 - s) with 2 by lia.
        rewrite (drop_S _ _ _ Hr'). simpl. left. }
      pose proof (jsonSize_elem_of r _ Hin). lia. }
    destruct (writable d (chunkNameOf prefix c)) eqn:Hw.
    + pose proof (writeChunks_step prefix l M fuel c s e' d Hlt Hg ltac:(lia) Hw) as Hstep.
      cbv zeta in Hstep. fold e in Hstep. rewrite Hstep. clear Hstep.
      edestruct (IH (c + 1) e) as (chunks & rest & o & d' & Hrun & Hlog & Hcat & Hall & Hgr
                                   & Hwr & Hout); [lia|lia|].
      exists (window l s e :: chunks), rest, o, d'.
      split; [exact Hrun|].
      split. { rewrite Hlog. simpl. rewrite chunkFiles_cons, <- app_assoc. done. }
      split. { simpl. rewrite <- app_assoc, Hcat. symmetry. apply window_snoc. lia. }
      split; [by constructor|].
      split. { split; [|done]. rewrite Hcat. destruct (drop e l) eqn:Hd; [done|]. by eapply Hnext. }
      split.
      { intros [|i] Hi; [by rewrite Nat.add_0_r|]. simpl in Hi, Hwr.
        replace (c + S i) with (c + 1 + i) by lia. apply Hwr. lia. }
      simpl length. replace (c + S (length chunks)) with (c + 1 + length chunks) by lia.
      exact Hout.
    + exists [], (drop s l), (Err (WriteChunkError (chunkNameOf prefix c))), d.
      split.
      { cbn [writeChunks]. change (len (SliceOf l)) with (length l).
        destruct (Nat.ltb_spec s (length l)); [|lia].
        rewrite Hg. fold e. rewrite reslice_alloc by lia.
        unfold WriteJSON, os_WriteFile. by rewrite Hw. }
      split; [by rewrite app_nil_r|]. split; [done|]. split; [constructor|].
      split; [done|]. split; [simpl; intros; lia|].
      right. simpl. rewrite Nat.add_0_r. split; [done|]. split; [done|].
      by rewrite (drop_S _ _ _ Hr').
  - exists [], [], (Ok tt), d.
    split.
    { cbn [writeChunks]. change (len (SliceOf l)) with (length l).
      by destruct (Nat.ltb_spec s (length l)); [lia|]. }
    split; [by rewrite app_nil_r|]. split; [symmetry; apply drop_ge; lia|].
    split; [constructor|]. split; [done|]. split; [simpl; intros; lia|]. by left.
Qed.

Lemma SplitAndWriteJSON_run prefix (records : slice EmailRecord) maxSizeKB d :
  ∃ chunks rest o d', SplitAndWriteJSON prefix records maxSizeKB d = (o, d') ∧
    written d' = written d ++ chunkFiles prefix 1 chunks ∧
    concat chunks ++ rest = elems records ∧
    Forall (admissible (maxSizeOf maxSizeKB)) chunks ∧
    greedy (maxSizeOf maxSizeKB) chunks rest ∧
    (∀ i, i < length chunks → writable d (chunkNameOf prefix (1 + i)) = true) ∧
    ((o = Ok tt ∧ rest = []) ∨
     (o = Err (WriteChunkError (chunkNameOf prefix (1 + length chunks))) ∧
      writable d (chunkNameOf prefix (1 + length chunks)) = false ∧ rest ≠ [])).
Proof.
  unfold SplitAndWriteJSON. destruct records as [|l].
  - exists [], [], (Ok tt), d. simpl. rewrite app_nil_r.
    repeat split; [constructor|intros; lia|by left].
  - apply (writeChunks_run prefix l (maxSizeOf maxSizeKB) (S (length l)) 1 0 d); simpl; lia.
Qed.

End Chunking.

Section ChunkingProperties.
Context `{enc : StringEncoder}.

Lemma greedy_lookup M (chunks : list (list EmailRecord)) rest i chunk next :
  greedy M chunks rest → chunks !! i = Some chunk →
  head (concat (drop (S i) chunks) ++ rest) = Some next →
  (M < jsonSize (chunk ++ [next]))%Z.
Proof.
  revert i. induction chunks as [|c cs IH]; intros i Hgr Hi Hnext; [done|].
  destruct Hgr as [Hhead Htail]. destruct i as [|i].
  - injection Hi as <-. simpl in Hnext. rewrite drop_0 in Hnext.
    by destruct (concat cs ++ rest); simplify_eq/=.
  - by apply (IH i).
Qed.

Lemma concat_singletons {A} (l : list A) : concat ((λ x, [x]) <$> l) = l.
Proof. induction l as [|x l IH]; [done|]. by rewrite fmap_cons; simpl; rewrite IH. Qed.

Lemma singletons_admissible M (l : list EmailRecord) :
  Forall (admissible M) ((λ r, [r]) <$> l).
Proof.
  apply Forall_fmap, Forall_forall. intros r _. split; [done|].
  destruct (Z_le_gt_dec (jsonSize [r]) M); [by left|]. right. exists r. split; [done|lia].
Qed.

Lemma all_singletons (chunks : list (list EmailRecord)) :
  Forall (λ chunk, ∃ r, chunk = [r]) chunks → chunks = (λ r, [r]) <$> concat chunks.
Proof.
  induction 1 as [|chunk chunks [r ->] _ IH]; [done|].
  cbn [concat app]. rewrite fmap_cons. by f_equal.
Qed.

(** When the whole sequence fits, a greedy series has a single chunk. *)
Lemma greedy_whole M (chunks : list (list EmailRecord)) rest :
  Forall (admissible M) chunks → greedy M chunks rest →
  (jsonSize (concat chunks ++ rest) ≤ M)%Z →
  chunks = [] ∨ (chunks = [concat chunks] ∧ rest = []).
Proof.
  intros Hadm Hgr Hfit. destruct chunks as [|c cs]; [by left|]. right.
  destruct Hgr as [Hhead _]. apply Forall_cons in Hadm as [_ Hcs].
  simpl in Hfit. destruct (concat cs ++ rest) as [|next tail] eqn:Hnext.
  - apply app_eq_nil in Hnext as [Hnil ->].
    apply (admissible_concat_nil M) in Hnil as ->; [|done].
    simpl. by rewrite app_nil_r.
  - exfalso. rewrite <- app_assoc, Hnext in Hfit.
    replace (c ++ next :: tail) with ((c ++ [next]) ++ tail) in Hfit by by rewrite <- app_assoc.
    rewrite jsonSize_app in Hfit. pose proof (jsonSize_at_least tail). lia.
Qed.

End ChunkingProperties.

(** X1. The cuts are greedy.  In every run of [SplitAndWriteJSON], the
    record that follows a written chunk (the first record of the next chunk,
    or the first record left unwritten after a failed write) did not fit:
    the chunk with that record appended serializes to more than [maxSize]
    bytes. *)
Theorem every_chunk_is_full `{enc : StringEncoder}
    prefix (records : slice EmailRecord) (maxSizeKB : Z) d :
  ∃ chunks rest,
    written (SplitAndWriteJSON prefix records maxSizeKB d).2
      = written d ++ chunkFiles prefix 1 chunks ∧
    concat chunks ++ rest = elems records ∧
    ((SplitAndWriteJSON prefix records maxSizeKB d).1 = Ok tt → rest = []) ∧
    ∀ i chunk next,
      chunks !! i = Some chunk →
      head (concat (drop (S i) chunks) ++ rest) = Some next →
      (maxSizeOf maxSizeKB < jsonSize (chunk ++ [next]))%Z.
Proof.
  destruct (SplitAndWriteJSON_run prefix records maxSizeKB d)
    as (chunks & rest & o & d' & Hrun & Hlog & Hcat & _ & Hgr & _ & Hout).
  exists chunks, rest. rewrite Hrun. simpl. split; [done|]. split; [done|]. split.
  - intros ->. by destruct Hout as [[_ ?]|[? _]].
  - intros i chunk next. by apply greedy_lookup.
Qed.

(** X2. The output is the only greedy cut.  When [SplitAndWriteJSON]
    succeeds, any way of cutting the input into consecutive chunks that
    respect the limit and are greedy gives exactly the files written: the
    file boundaries are fixed by the record sizes and the limit alone. *)
Theorem greedy_cut_is_the_output `{enc : StringEncoder}
    prefix (records : slice EmailRecord) (maxSizeKB : Z) d (other : list (list EmailRecord)) :
  (SplitAndWriteJSON prefix records maxSizeKB d).1 = Ok tt →
  concat other = elems records →
  Forall (admissible (maxSizeOf maxSizeKB)) other →
  greedy (maxSizeOf maxSizeKB) other [] →
  written (SplitAndWriteJSON prefix records maxSizeKB d).2
    = written d ++ chunkFiles prefix 1 other.
Proof.
  destruct (SplitAndWriteJSON_run prefix records maxSizeKB d)
    as (chunks & rest & o & d' & Hrun & Hlog & Hcat & Hadm & Hgr & _ & Hout).
  rewrite Hrun. simpl. intros -> Hother Hadm' Hgr'.
  destruct Hout as [[_ ->]|[? _]]; [|done]. rewrite app_nil_r in Hcat.
  rewrite Hlog. do 2 f_equal.
  apply (greedy_unique (maxSizeOf maxSizeKB)); [done..|congruence].
Qed.

Lemma greedy_cut_is_the_output_witness :
  (@SplitAndWriteJSON quotePlain "learn"
     (SliceOf [shortRecord "1" true; shortRecord "2" false]) 0 allWritable).1 = Ok tt ∧
  concat [[shortRecord "1" true]; [shortRecord "2" false]]
    = elems (SliceOf [shortRecord "1" true; shortRecord "2" false]) ∧
  Forall (@admissible quotePlain (maxSizeOf 0))
    [[shortRecord "1" true]; [shortRecord "2" false]] ∧
  @greedy quotePlain (maxSizeOf 0) [[shortRecord "1" true]; [shortRecord "2" false]] [] ∧
  written (@SplitAndWriteJSON quotePlain "learn"
             (SliceOf [shortRecord "1" true; shortRecord "2" false]) 0 allWritable).2
    = written allWritable
      ++ @chunkFiles quotePlain "learn" 1 [[shortRecord "1" true]; [shortRecord "2" false]].
Proof.
  assert ((@SplitAndWriteJSON quotePlain "learn"
     (SliceOf [shortRecord "1" true; shortRecord "2" false]) 0 allWritable).1 = Ok tt)
    as Hok by reflexivity.
  assert (concat [[shortRecord "1" true]; [shortRecord "2" false]]
    = elems (SliceOf [shortRecord "1" true; shortRecord "2" false])) as Hcat by reflexivity.
  assert (Forall (@admissible quotePlain (maxSizeOf 0))
    [[shortRecord "1" true]; [shortRecord "2" false]]) as Hadm.
  { assert (∀ r, (maxSizeOf 0 < @jsonSize quotePlain [r])%Z →
                 @admissible quotePlain (maxSizeOf 0) [r]) as Hone.
    { intros r Hr. split; [discriminate|]. right. by exists r. }
    apply Forall_cons_2; [apply Hone; vm_compute; reflexivity|].
    apply Forall_cons_2; [apply Hone; vm_compute; reflexivity|]. apply Forall_nil_2. }
  assert (@greedy quotePlain (maxSizeOf 0)
            [[shortRecord "1" true]; [shortRecord "2" false]] []) as Hgr.
  { simpl. repeat split; vm_compute; reflexivity. }
  split; [exact Hok|]. split; [exact Hcat|]. split; [exact Hadm|]. split; [exact Hgr|].
  exact (@greedy_cut_is_the_output quotePlain "learn" _ 0 allWritable _ Hok Hcat Hadm Hgr).
Defined.

(** X3. Fewest files.  When [SplitAndWriteJSON] succeeds, no way of cutting
    the input into consecutive chunks that respect the limit has fewer chunks
    than the number of files written; in particular it never writes more
    files than there are records. *)
Theorem fewest_files `{enc : StringEncoder}
    prefix (records : slice EmailRecord) (maxSizeKB : Z) d :
  (SplitAndWriteJSON prefix records maxSizeKB d).1 = Ok tt →
  ∃ chunks,
    written (SplitAndWriteJSON prefix records maxSizeKB d).2
      = written d ++ chunkFiles prefix 1 chunks ∧
    length (chunkFiles prefix 1 chunks) = length chunks ∧
    (∀ other, concat other = elems records →
              Forall (admissible (maxSizeOf maxSizeKB)) other →
              length chunks ≤ length other) ∧
    length chunks ≤ len records.
Proof.
  destruct (SplitAndWriteJSON_run prefix records maxSizeKB d)
    as (chunks & rest & o & d' & Hrun & Hlog & Hcat & Hadm & Hgr & _ & Hout).
  rewrite Hrun. simpl. intros ->.
  destruct Hout as [[_ ->]|[? _]]; [|done]. rewrite app_nil_r in Hcat.
  assert (∀ other, concat other = elems records →
                   Forall (admissible (maxSizeOf maxSizeKB)) other →
                   length chunks ≤ length other) as Hmin.
  { intros other Hother Hadm'.
    apply (greedy_stays_ahead (maxSizeOf maxSizeKB) (maxSizeOf maxSizeKB) other chunks []);
      [lia|done|done|done|]. simpl. congruence. }
  exists chunks. split; [done|]. split; [apply length_imap|]. split; [done|].
  unfold len. rewrite <- (length_fmap (λ r, [r]) (elems records)).
  apply Hmin; [apply concat_singletons|apply singletons_admissible].
Qed.

Lemma fewest_files_witness :
  (@SplitAndWriteJSON quotePlain "learn" fiveRecords 1 allWritable).1 = Ok tt ∧
  ∃ chunks,
    written (@SplitAndWriteJSON quotePlain "learn" fiveRecords 1 allWritable).2
      = written allWritable ++ @chunkFiles quotePlain "learn" 1 chunks ∧
    length (@chunkFiles quotePlain "learn" 1 chunks) = length chunks ∧
    (∀ other, concat other = elems fiveRecords →
              Forall (@admissible quotePlain (maxSizeOf 1)) other →
              length chunks ≤ length other) ∧
    length chunks ≤ len fiveRecords.
Proof.
  assert ((@SplitAndWriteJSON quotePlain "learn" fiveRecords 1 allWritable).1 = Ok tt)
    as Hok by reflexivity.
  split; [exact Hok|].
  exact (@fewest_files quotePlain "learn" fiveRecords 1 allWritable Hok).
Defined.

(** X4. A larger limit never costs files.  Of two successful runs on the
    same records, the one whose [maxSize] is at least as large writes no more
    files than the other. *)
Theorem larger_limit_no_more_files `{enc : StringEncoder}
    prefix1 prefix2 (records : slice EmailRecord) (maxSizeKB1 maxSizeKB2 : Z) d1 d2 :
  (maxSizeOf maxSizeKB1 ≤ maxSizeOf maxSizeKB2)%Z →
  (SplitAndWriteJSON prefix1 records maxSizeKB1 d1).1 = Ok tt →
  (SplitAndWriteJSON prefix2 records maxSizeKB2 d2).1 = Ok tt →
  ∃ files1 files2,
    written (SplitAndWriteJSON prefix1 records maxSizeKB1 d1).2 = written d1 ++ files1 ∧
    written (SplitAndWriteJSON prefix2 records maxSizeKB2 d2).2 = written d2 ++ files2 ∧
    length files2 ≤ length files1.
Proof.
  intros HM.
  destruct (SplitAndWriteJSON_run prefix1 records maxSizeKB1 d1)
    as (chunks1 & rest1 & o1 & d1' & Hrun1 & Hlog1 & Hcat1 & Hadm1 & _ & _ & Hout1).
  destruct (SplitAndWriteJSON_run prefix2 records maxSizeKB2 d2)
    as (chunks2 & rest2 & o2 & d2' & Hrun2 & Hlog2 & Hcat2 & Hadm2 & Hgr2 & _ & Hout2).
  rewrite Hrun1, Hrun2. simpl. intros -> ->.
  destruct Hout1 as [[_ ->]|[? _]]; [|done]. destruct Hout2 as [[_ ->]|[? _]]; [|done].
  rewrite app_nil_r in Hcat1, Hcat2.
  exists (chunkFiles prefix1 1 chunks1), (chunkFiles prefix2 1 chunks2).
  split; [done|]. split; [done|]. unfold chunkFiles. rewrite !length_imap.
  apply (greedy_stays_ahead (maxSizeOf maxSizeKB1) (maxSizeOf maxSizeKB2) chunks1 chunks2 []);
    [done..|]. simpl. congruence.
Qed.

Lemma larger_limit_no_more_files_witness :
  (maxSizeOf 0 ≤ maxSizeOf 1)%Z ∧
  (@SplitAndWriteJSON quotePlain "small" fiveRecords 0 allWritable).1 = Ok tt ∧
  (@SplitAndWriteJSON quotePlain "large" fiveRecords 1 allWritable).1 = Ok tt ∧
  ∃ files1 files2,
    written (@SplitAndWriteJSON quotePlain "small" fiveRecords 0 allWritable).2
      = written allWritable ++ files1 ∧
    written (@SplitAndWriteJSON quotePlain "large" fiveRecords 1 allWritable).2
      = written allWritable ++ files2 ∧
    length files2 ≤ length files1.
Proof.
  assert (maxSizeOf 0 ≤ maxSizeOf 1)%Z as HM by (vm_compute; discriminate).
  assert ((@SplitAndWriteJSON quotePlain "small" fiveRecords 0 allWritable).1 = Ok tt)
    as H1 by reflexivity.
  assert ((@SplitAndWriteJSON quotePlain "large" fiveRecords 1 allWritable).1 = Ok tt)
    as H2 by reflexivity.
  split; [exact HM|]. split; [exact H1|]. split; [exact H2|].
  exact (@larger_limit_no_more_files quotePlain "small" "large" fiveRecords 0 1
           allWritable allWritable HM H1 H2).
Defined.

(** X5. Everything fits.  If the array of all the records is within
    [maxSize], the input is not empty and the first chunk name can be
    written, [SplitAndWriteJSON] writes the single file [<prefix>_1.json]
    with all the records and returns no error. *)
Theorem one_file_when_all_fits `{enc : StringEncoder}
    prefix (records : slice EmailRecord) (maxSizeKB : Z) d :
  elems records ≠ [] →
  (jsonSize (elems records) ≤ maxSizeOf maxSizeKB)%Z →
  writable d (chunkNameOf prefix 1) = true →
  ∃ d',
    SplitAndWriteJSON prefix records maxSizeKB d = (Ok tt, d') ∧
    written d' = written d ++ [(chunkNameOf prefix 1, MarshalIndent records)].
Proof.
  intros Hne Hfit Hw.
  destruct (SplitAndWriteJSON_run prefix records maxSizeKB d)
    as (chunks & rest & o & d' & Hrun & Hlog & Hcat & Hadm & Hgr & _ & Hout).
  rewrite <- Hcat in Hfit.
  destruct (greedy_whole _ _ _ Hadm Hgr Hfit) as [->|[Hone ->]].
  - destruct Hout as [[_ ->]|(_ & Hno & _)]; [by simpl in Hcat|].
    simpl in Hno. by rewrite Hw in Hno.
  - destruct Hout as [[-> _]|(_ & _ & ?)]; [|done].
    exists d'. split; [done|]. rewrite Hlog, Hone. rewrite app_nil_r in Hcat.
    rewrite Hcat. destruct records as [|l]; [done|]. by rewrite chunkFiles_cons.
Qed.

Lemma one_file_when_all_fits_witness :
  elems fiveRecords ≠ [] ∧
  (@jsonSize quotePlain (elems fiveRecords) ≤ maxSizeOf 1)%Z ∧
  writable allWritable (chunkNameOf "learn" 1) = true ∧
  ∃ d',
    @SplitAndWriteJSON quotePlain "learn" fiveRecords 1 allWritable = (Ok tt, d') ∧
    written d' = written allWritable
      ++ [(chunkNameOf "learn" 1, @MarshalIndent quotePlain _ _ fiveRecords)].
Proof.
  assert (elems fiveRecords ≠ []) as Hne by discriminate.
  assert (@jsonSize quotePlain (elems fiveRecords) ≤ maxSizeOf 1)%Z as Hfit
    by (vm_compute; discriminate).
  assert (writable allWritable (chunkNameOf "learn" 1) = true) as Hw by reflexivity.
  split; [exact Hne|]. split; [exact Hfit|]. split; [exact Hw|].
  exact (@one_file_when_all_fits quotePlain "learn" fiveRecords 1 allWritable Hne Hfit Hw).
Defined.

(** X6. Nothing fits.  If every record alone serializes to more than
    [maxSize] and the call succeeds, it writes one file per record, in
    order. *)
Theorem one_file_per_record_when_none_fits `{enc : StringEncoder}
    prefix (records : slice EmailRecord) (maxSizeKB : Z) d :
  Forall (λ r, (maxSizeOf maxSizeKB < jsonSize [r])%Z) (elems records) →
  (SplitAndWriteJSON prefix records maxSizeKB d).1 = Ok tt →
  written (SplitAndWriteJSON prefix records maxSizeKB d).2
    = written d ++ chunkFiles prefix 1 ((λ r, [r]) <$> elems records).
Proof.
  intros Hbig.
  destruct (SplitAndWriteJSON_run prefix records maxSizeKB d)
    as (chunks & rest & o & d' & Hrun & Hlog & Hcat & Hadm & _ & _ & Hout).
  rewrite Hrun. simpl. intros ->. destruct Hout as [[_ ->]|[? _]]; [|done].
  rewrite app_nil_r in Hcat. rewrite Hlog, <- Hcat. do 2 f_equal.
  apply all_singletons, Forall_forall. intros chunk Hchunk.
  pose proof (proj1 (Forall_forall _ _) Hadm chunk Hchunk) as [Hne [Hfit|(r & -> & _)]];
    [|by exists r].
  destruct chunk as [|r chunk]; [done|]. exfalso.
  assert (r ∈ elems records) as Hr.
  { rewrite <- Hcat. apply list_elem_of_In, in_concat. exists (r :: chunk).
    split; apply list_elem_of_In; [done|left]. }
  pose proof (proj1 (Forall_forall _ _) Hbig r Hr) as Hr'. simpl in Hr'.
  pose proof (jsonSize_elem_of r (r :: chunk) ltac:(left)). lia.
Qed.

Lemma one_file_per_record_when_none_fits_witness :
  Forall (λ r, (maxSizeOf 0 < @jsonSize quotePlain [r])%Z) (elems fiveRecords) ∧
  (@SplitAndWriteJSON quotePlain "learn" fiveRecords 0 allWritable).1 = Ok tt ∧
  written (@SplitAndWriteJSON quotePlain "learn" fiveRecords 0 allWritable).2
    = written allWritable
      ++ @chunkFiles quotePlain "learn" 1 ((λ r, [r]) <$> elems fiveRecords).
Proof.
  assert (Forall (λ r, (maxSizeOf 0 < @jsonSize quotePlain [r])%Z) (elems fiveRecords))
    as Hbig by (repeat constructor; vm_compute; reflexivity).
  assert ((@SplitAndWriteJSON quotePlain "learn" fiveRecords 0 allWritable).1 = Ok tt)
    as Hok by reflexivity.
  split; [exact Hbig|]. split; [exact Hok|].
  exact (@one_file_per_record_when_none_fits quotePlain "learn" fiveRecords 0 allWritable
           Hbig Hok).
Defined.

(** X7. A failed write stops the series.  If [SplitAndWriteJSON] returns an
    error, the error names the first chunk file the disk refused; the chunk
    files before it were written, in order, and stay; nothing is written
    after it, so the records from that chunk on are in no file. *)
Theorem failed_write_stops_the_series `{enc : StringEncoder}
    prefix (records : slice EmailRecord) (maxSizeKB : Z) d e :
  (SplitAndWriteJSON prefix records maxSizeKB d).1 = Err e →
  ∃ chunks rest,
    e = WriteChunkError (chunkNameOf prefix (1 + length chunks)) ∧
    writable d (chunkNameOf prefix (1 + length chunks)) = false ∧
    (∀ i, i < length chunks → writable d (chunkNameOf prefix (1 + i)) = true) ∧
    written (SplitAndWriteJSON prefix records maxSizeKB d).2
      = written d ++ chunkFiles prefix 1 chunks ∧
    concat chunks ++ rest = elems records ∧ rest ≠ [].
Proof.
  destruct (SplitAndWriteJSON_run prefix records maxSizeKB d)
    as (chunks & rest & o & d' & Hrun & Hlog & Hcat & _ & _ & Hwr & Hout).
  rewrite Hrun. simpl. intros ->.
  destruct Hout as [[? _]|(He & Hno & Hrest)]; [done|]. injection He as ->.
  by exists chunks, rest.
Qed.

Lemma failed_write_stops_the_series_witness :
  (@SplitAndWriteJSON quotePlain "learn" fiveRecords 0 (refusing "learn_3.json")).1
    = Err (WriteChunkError "learn_3.json") ∧
  ∃ chunks rest,
    WriteChunkError "learn_3.json" = WriteChunkError (chunkNameOf "learn" (1 + length chunks)) ∧
    writable (refusing "learn_3.json") (chunkNameOf "learn" (1 + length chunks)) = false ∧
    (∀ i, i < length chunks →
          writable (refusing "learn_3.json") (chunkNameOf "learn" (1 + i)) = true) ∧
    written (@SplitAndWriteJSON quotePlain "learn" fiveRecords 0 (refusing "learn_3.json")).2
      = written (refusing "learn_3.json") ++ @chunkFiles quotePlain "learn" 1 chunks ∧
    concat chunks ++ rest = elems fiveRecords ∧ rest ≠ [].
Proof.
  assert ((@SplitAndWriteJSON quotePlain "learn" fiveRecords 0 (refusing "learn_3.json")).1
    = Err (WriteChunkError "learn_3.json")) as Herr by reflexivity.
  split; [exact Herr|].
  exact (@failed_write_stops_the_series quotePlain "learn" fiveRecords 0
           (refusing "learn_3.json") _ Herr).
Defined.

(** ** The partitioner: nothing lost, panics, sizes *)

Lemma distribute_Permutation trainIndices testIndices i (rest : list EmailRecord) A B C :
  ∀ A' B' C', distribute trainIndices testIndices i rest (A, B, C) = (A', B', C') →
  elems A' ++ elems B' ++ elems C' ≡ₚ (elems A ++ elems B ++ elems C) ++ rest.
Proof.
  revert i A B C. induction rest as [|r rest IH]; intros i A B C A' B' C' Hrun.
  - simpl in Hrun. injection Hrun as <- <- <-. by rewrite app_nil_r.
  - cbn [distribute] in Hrun.
    destruct (contains trainIndices i); [|destruct (contains testIndices i)];
      apply IH in Hrun; rewrite Hrun; unfold append; simpl; solve_Permutation.
Qed.

Lemma distribute_nil_indices i (rest : list EmailRecord) A B c :
  distribute [] [] i rest (A, B, SliceOf c) = (A, B, SliceOf (c ++ rest)).
Proof.
  revert i c. induction rest as [|r rest IH]; intros i c; simpl.
  - by rewrite app_nil_r.
  - unfold append. simpl. rewrite IH. by rewrite <- app_assoc.
Qed.

(** X8. [contains] is membership: it returns true exactly when the integer
    occurs in the slice, so never on the empty slice. *)
Theorem contains_is_membership (slice : list nat) (i : nat) :
  (contains slice i = true ↔ i ∈ slice) ∧ contains [] i = false ∧
  ∀ more, contains (slice ++ more) i = contains slice i || contains more i.
Proof.
  split; [apply contains_elem_of|]. split; [done|]. intros more.
  induction slice as [|v slice IH]; [done|]. simpl. by destruct (v =? i).
Qed.

Lemma SplitData_conserves Perm (records : slice EmailRecord) (a b : Z)
    trainSet testSet learnSet :
  SplitData Perm records a b = Ok (trainSet, testSet, learnSet) →
  elems trainSet ++ elems testSet ++ elems learnSet ≡ₚ elems records.
Proof.
  intros Hrun. unfold SplitData in Hrun.
  destruct (Z.of_nat (len records) <=? GoInt.add a b)%Z; [done|].
  destruct (drawIndices Perm (len records) a b) as [[trainIndices testIndices]|]; [|done].
  injection Hrun as Hrun. by apply distribute_Permutation in Hrun.
Qed.

(** X9. The split loses and invents nothing.  Whenever [SplitData]
    succeeds, whatever the random source returned, the three subsets together
    hold exactly the records of the dataset, each as many times as the
    dataset does; so their sizes add up to the number of records. *)
Theorem split_loses_nothing Perm (records : slice EmailRecord) (a b : Z)
    trainSet testSet learnSet :
  SplitData Perm records a b = Ok (trainSet, testSet, learnSet) →
  elems trainSet ++ elems testSet ++ elems learnSet ≡ₚ elems records ∧
  len trainSet + len testSet + len learnSet = len records.
Proof.
  intros Hrun%SplitData_conserves. split; [done|]. unfold len.
  apply Permutation_length in Hrun. rewrite !length_app in Hrun. lia.
Qed.

Lemma split_loses_nothing_witness :
  SplitData reversed fiveRecords 2 1
    = Ok (SliceOf [shortRecord "4" true; shortRecord "5" false],
          SliceOf [shortRecord "3" false],
          SliceOf [shortRecord "1" true; shortRecord "2" false]) ∧
  elems (SliceOf [shortRecord "4" true; shortRecord "5" false])
    ++ elems (SliceOf [shortRecord "3" false])
    ++ elems (SliceOf [shortRecord "1" true; shortRecord "2" false]) ≡ₚ elems fiveRecords ∧
  len (SliceOf [shortRecord "4" true; shortRecord "5" false])
    + len (SliceOf [shortRecord "3" false])
    + len (SliceOf [shortRecord "1" true; shortRecord "2" false]) = len fiveRecords.
Proof.
  assert (SplitData reversed fiveRecords 2 1
    = Ok (SliceOf [shortRecord "4" true; shortRecord "5" false],
          SliceOf [shortRecord "3" false],
          SliceOf [shortRecord "1" true; shortRecord "2" false])) as Hrun by reflexivity.
  split; [exact Hrun|].
  exact (split_loses_nothing reversed fiveRecords 2 1 _ _ _ Hrun).
Defined.

(** X10. Negative counts panic.  For counts whose sum is a Go int below the
    number of records, and a random source that returns as many indices as it
    is asked for, [SplitData] panics (slice bounds out of range) exactly when
    one of the counts is negative; no error value is returned for them. *)
Theorem negative_count_panics Perm (records : slice EmailRecord) (a b : Z) :
  GoInt.representable (a + b) →
  (a + b < Z.of_nat (len records))%Z →
  length (Perm (len records)) = len records →
  (SplitData Perm records a b = Panic ↔ (a < 0 ∨ b < 0)%Z).
Proof.
  intros Hrep Hab Hlen. unfold SplitData, GoInt.add. rewrite wrap_exact by done.
  destruct (Z.leb_spec (Z.of_nat (len records)) (a + b)); [lia|].
  destruct (Z_lt_ge_dec a 0) as [Ha|Ha]; [|destruct (Z_lt_ge_dec b 0) as [Hb|Hb]].
  - split; [by left|]. intros _. unfold drawIndices, resliceZ.
    by destruct (Z.leb_spec 0 a); [lia|].
  - split; [by right|]. intros _. unfold drawIndices, GoInt.add. rewrite wrap_exact by done.
    destruct (resliceZ (SliceOf (Perm (len records))) 0 a); [|done].
    unfold resliceZ. destruct (Z.leb_spec a (a + b)); [lia|].
    by rewrite andb_false_r.
  - rewrite drawIndices_in_range by (done || lia). split; [done|lia].
Qed.

Lemma negative_count_panics_witness :
  GoInt.representable (-1 + 2) ∧
  (-1 + 2 < Z.of_nat (len fiveRecords))%Z ∧
  length (reversed (len fiveRecords)) = len fiveRecords ∧
  (SplitData reversed fiveRecords (-1) 2 = Panic ↔ (-1 < 0 ∨ 2 < 0)%Z).
Proof.
  assert (GoInt.representable (-1 + 2)) as Hrep by (split; vm_compute; discriminate).
  assert (-1 + 2 < Z.of_nat (len fiveRecords))%Z as Hab by (vm_compute; reflexivity).
  assert (length (reversed (len fiveRecords)) = len fiveRecords) as Hlen by reflexivity.
  split; [exact Hrep|]. split; [exact Hab|]. split; [exact Hlen|].
  exact (negative_count_panics reversed fiveRecords (-1) 2 Hrep Hab Hlen).
Defined.

(** X11. The learning subset is the remainder.  On valid input (non-negative
    counts with a sum below the number of records, a permutation from the
    random source) the learning subset has exactly
    [totalCount - trainCount - testCount] records, the capacity line 158
    allocates for it, and at least one. *)
Theorem learning_set_is_the_remainder Perm (records : slice EmailRecord) (a b : Z) :
  (0 ≤ a)%Z → (0 ≤ b)%Z → (a + b < Z.of_nat (len records))%Z →
  (Z.of_nat (len records) ≤ GoInt.max_int)%Z →
  Perm (len records) ≡ₚ seq 0 (len records) →
  ∃ trainSet testSet learnSet,
    SplitData Perm records a b = Ok (trainSet, testSet, learnSet) ∧
    Z.of_nat (len learnSet) = (Z.of_nat (len records) - a - b)%Z ∧
    1 ≤ len learnSet.
Proof.
  intros Ha Hb Hab Hn Hperm.
  assert (GoInt.representable (a + b)) as Hrep.
  { unfold GoInt.representable, GoInt.min_int. lia. }
  destruct (SplitData_valid Perm records a b Ha Hb Hab Hrep Hperm) as (Hrun & _ & _ & Hl3).
  do 3 eexists. split; [exact Hrun|].
  match goal with |- context [len (SliceOf ?L)] =>
    assert (len (SliceOf L) = len records - Z.to_nat a - Z.to_nat b) as ->
  end; [|lia].
  match goal with |- len (SliceOf ?L) = _ => change (len (SliceOf L)) with (length L) end.
  rewrite membersAt_length by apply positions_bounded. exact Hl3.
Qed.

Lemma learning_set_is_the_remainder_witness :
  (0 ≤ 2)%Z ∧ (0 ≤ 1)%Z ∧ (2 + 1 < Z.of_nat (len fiveRecords))%Z ∧
  (Z.of_nat (len fiveRecords) ≤ GoInt.max_int)%Z ∧
  reversed (len fiveRecords) ≡ₚ seq 0 (len fiveRecords) ∧
  ∃ trainSet testSet learnSet,
    SplitData reversed fiveRecords 2 1 = Ok (trainSet, testSet, learnSet) ∧
    Z.of_nat (len learnSet) = (Z.of_nat (len fiveRecords) - 2 - 1)%Z ∧
    1 ≤ len learnSet.
Proof.
  assert (0 ≤ 2)%Z as Ha by lia. assert (0 ≤ 1)%Z as Hb by lia.
  assert (2 + 1 < Z.of_nat (len fiveRecords))%Z as Hab by (vm_compute; reflexivity).
  assert (Z.of_nat (len fiveRecords) ≤ GoInt.max_int)%Z as Hn by (vm_compute; discriminate).
  pose proof (reversed_Permutation (len fiveRecords)) as Hperm.
  split; [exact Ha|]. split; [exact Hb|]. split; [exact Hab|]. split; [exact Hn|].
  split; [exact Hperm|].
  exact (learning_set_is_the_remainder reversed fiveRecords 2 1 Ha Hb Hab Hn Hperm).
Defined.

(** X12. Zero counts.  With both counts zero and a dataset that is not
    empty, [SplitData] succeeds whatever the random source returns: the
    training and testing subsets are allocated and empty, and the learning
    subset is the whole dataset in its order. *)
Theorem zero_counts_keep_everything_for_learning Perm (records : slice EmailRecord) :
  0 < len records →
  SplitData Perm records 0 0 = Ok (SliceOf [], SliceOf [], SliceOf (elems records)).
Proof.
  intros Hn. unfold SplitData. change (GoInt.add 0 0) with 0%Z.
  destruct (Z.leb_spec (Z.of_nat (len records)) 0); [lia|].
  unfold drawIndices. change (GoInt.add 0 0) with 0%Z.
  rewrite resliceZ_alloc by lia. cbn [elems Z.to_nat]. unfold window, make.
  rewrite Nat.sub_diag, take_0. by rewrite distribute_nil_indices.
Qed.

Lemma zero_counts_keep_everything_for_learning_witness :
  0 < len fiveRecords ∧
  SplitData reversed fiveRecords 0 0 = Ok (SliceOf [], SliceOf [], SliceOf (elems fiveRecords)).
Proof.
  assert (0 < len fiveRecords) as Hn by (vm_compute; lia).
  split; [exact Hn|].
  exact (zero_counts_keep_everything_for_learning reversed fiveRecords Hn).
Defined.

(** ** The loader: its errors, short rows, narrow files *)


(** With a positive field count, the record loop sees a row of another width
    as the end of the input. *)
Lemma readRecords_truncate (k : nat) (good : list (list string)) bad rest fuel1 fuel2 acc :
  0 < k → Forall (λ row, length row = k) good → length bad ≠ k →
  length good < fuel1 → length good < fuel2 →
  readRecords fuel1 {| FieldsPerRecord := Z.of_nat k; pending := good ++ bad :: rest |} acc
  = readRecords fuel2 {| FieldsPerRecord := Z.of_nat k; pending := good |} acc.
Proof.
  intros Hk Hgood Hbad. revert fuel1 fuel2 acc.
  induction Hgood as [|row good Hrow _ IH]; intros fuel1 fuel2 acc H1 H2;
    (destruct fuel1 as [|fuel1]; [simpl in H1; lia|]);
    (destruct fuel2 as [|fuel2]; [simpl in H2; lia|]).
  - cbn [readRecords app]. unfold Read. cbn [pending FieldsPerRecord].
    destruct (Z.ltb_spec 0 (Z.of_nat k)); [|lia].
    by destruct (Z.eqb_spec (Z.of_nat (length bad)) (Z.of_nat k)); [lia|].
  - cbn [readRecords app]. unfold Read. cbn [pending FieldsPerRecord].
    destruct (Z.ltb_spec 0 (Z.of_nat k)); [|lia].
    destruct (Z.eqb_spec (Z.of_nat (length row)) (Z.of_nat k)); [|lia].
    destruct (row !! 0), (row !! 1), (row !! 2); try done.
    apply IH; simpl in *; lia.
Qed.

(** The loader on a well-formed file (the content of C7, for reuse). *)
Lemma ReadCSV_wellformed csvFiles filename (header : list string) (rows : list (list string)) :
  csvFiles filename = Some (header :: rows) → 3 ≤ length header →
  Forall (λ row, length row = length header) rows →
  ∃ records, ReadCSV csvFiles filename = Ok records ∧ Forall2 builtFrom rows (elems records).
Proof.
  intros Hopen Hheader Hrows. unfold ReadCSV. rewrite Hopen.
  unfold Read, NewReader. cbn [pending FieldsPerRecord]. simpl.
  destruct (readRecords_wellformed (length header) rows (S (length rows)) SliceNil)
    as (out & recs & Hrun & Hout & Hall); [done|done|lia|].
  exists out. split; [exact Hrun|]. by rewrite Hout.
Qed.


(** X14. Rows after a short row are ignored.  If a data row has a number of
    columns other than the header's, [ReadCSV] returns what it would return
    had the file ended just before that row: the row and everything after it
    have no effect on the result. *)
Theorem rows_after_a_short_row_are_ignored csvFiles csvFiles' filename
    (header : list string) (good : list (list string)) bad rest :
  header ≠ [] →
  Forall (λ row, length row = length header) good →
  length bad ≠ length header →
  csvFiles filename = Some (header :: good ++ bad :: rest) →
  csvFiles' filename = Some (header :: good) →
  ReadCSV csvFiles filename = ReadCSV csvFiles' filename.
Proof.
  intros Hne Hgood Hbad Hfile Hfile'. unfold ReadCSV. rewrite Hfile, Hfile'.
  unfold Read, NewReader. cbn -[readRecords].
  apply readRecords_truncate; [by destruct header; simpl; [|lia]|done|done| |lia].
  rewrite length_app. simpl. lia.
Qed.

Lemma rows_after_a_short_row_are_ignored_witness :
  ["id"; "email"; "label"] ≠ [] ∧
  Forall (λ row, length row = length ["id"; "email"; "label"])
    [["1"; "a@x"; "Phishing Email"]] ∧
  length ["2"; "b@x"] ≠ length ["id"; "email"; "label"] ∧
  (λ _ : string, Some shortRowFile) csvFileName
    = Some (["id"; "email"; "label"]
            :: [["1"; "a@x"; "Phishing Email"]] ++ ["2"; "b@x"] :: [["3"; "c@x"; "Safe Email"]]) ∧
  (λ _ : string, Some [["id"; "email"; "label"]; ["1"; "a@x"; "Phishing Email"]]) csvFileName
    = Some (["id"; "email"; "label"] :: [["1"; "a@x"; "Phishing Email"]]) ∧
  ReadCSV (λ _, Some shortRowFile) csvFileName
  = ReadCSV (λ _, Some [["id"; "email"; "label"]; ["1"; "a@x"; "Phishing Email"]]) csvFileName.
Proof.
  assert (["id"; "email"; "label"] ≠ []) as Hne by discriminate.
  assert (Forall (λ row, length row = length ["id"; "email"; "label"])
    [["1"; "a@x"; "Phishing Email"]]) as Hgood by (apply Forall_cons_2; [reflexivity|constructor]).
  assert (length ["2"; "b@x"] ≠ length ["id"; "email"; "label"]) as Hbad by (simpl; lia).
  split; [exact Hne|]. split; [exact Hgood|]. split; [exact Hbad|].
  split; [reflexivity|]. split; [reflexivity|].
  exact (rows_after_a_short_row_are_ignored
           (λ _, Some shortRowFile)
           (λ _, Some [["id"; "email"; "label"]; ["1"; "a@x"; "Phishing Email"]])
           csvFileName _ _ _ _ Hne Hgood Hbad eq_refl eq_refl).
Defined.

(** X15. Narrow files panic.  If the header has one or two columns and the
    first data row has as many, [ReadCSV] panics on [record[2]] (index out
    of range) instead of returning an error. *)
Theorem narrow_file_panics csvFiles filename (header row : list string)
    (rows : list (list string)) :
  csvFiles filename = Some (header :: row :: rows) →
  header ≠ [] → length header < 3 → length row = length header →
  ReadCSV csvFiles filename = Panic.
Proof.
  intros Hfile Hne Hnarrow Hrow. unfold ReadCSV. rewrite Hfile.
  change (Read (NewReader (header :: row :: rows)))
    with (header, @None goerror,
          {| FieldsPerRecord := Z.of_nat (length header); pending := row :: rows |}).
  cbn [pending readRecords]. unfold Read. cbn [pending FieldsPerRecord].
  destruct (Z.ltb_spec 0 (Z.of_nat (length header))) as [_|Hle].
  2: { destruct header; [done|simpl in Hle; lia]. }
  destruct (Z.eqb_spec (Z.of_nat (length row)) (Z.of_nat (length header))); [|lia].
  assert (length row < 3) as Hshort by lia. clear -Hshort.
  destruct row as [|c0 [|c1 [|c2 row]]]; [reflexivity..|]. simpl in Hshort. lia.
Qed.

Lemma narrow_file_panics_witness :
  (λ _ : string, Some [["id"; "email"]; ["1"; "a@x"]]) csvFileName
    = Some (["id"; "email"] :: ["1"; "a@x"] :: []) ∧
  ["id"; "email"] ≠ [] ∧ length ["id"; "email"] < 3 ∧
  length ["1"; "a@x"] = length ["id"; "email"] ∧
  ReadCSV (λ _, Some [["id"; "email"]; ["1"; "a@x"]]) csvFileName = Panic.
Proof.
  assert (["id"; "email"] ≠ []) as Hne by discriminate.
  assert (length ["id"; "email"] < 3) as Hnarrow by (simpl; lia).
  split; [reflexivity|]. split; [exact Hne|]. split; [exact Hnarrow|]. split; [reflexivity|].
  exact (narrow_file_panics (λ _, Some [["id"; "email"]; ["1"; "a@x"]]) csvFileName
           _ _ _ eq_refl Hne Hnarrow eq_refl).
Defined.

(** ** The orchestrator: views, files, order *)

Lemma fold_append {A B} (f : A → B) (l : list A) (s : slice B) :
  elems (fold_left (λ s x, append s (f x)) l s) = elems s ++ (f <$> l).
Proof.
  revert s. induction l as [|x l IH]; intros s; simpl.
  - by rewrite app_nil_r.
  - rewrite IH. simpl. by rewrite <- app_assoc.
Qed.

Lemma convertAndWrite_refused `{enc : StringEncoder} {A} `{JSONStruct A}
    filename (data : slice A) d next :
  writable d filename = false →
  convertAndWrite filename data d next = (Err WriteFileError, d).
Proof. intros Hw. unfold convertAndWrite, ConvertToJSON, WriteJSON, os_WriteFile. by rewrite Hw. Qed.

Lemma fixed_name_is_no_chunk_name (k : nat) :
  chunkNameOf learnJSONFilePrefix k ∉
    [trainEmailJSONFileName; trainResultJSONFileName; testJSONFileName].
Proof.
  unfold chunkNameOf, learnJSONFilePrefix, trainEmailJSONFileName, trainResultJSONFileName,
    testJSONFileName.
  intros Hin. repeat (apply elem_of_cons in Hin as [Heq|Hin]; [discriminate Heq|]).
  by apply elem_of_nil in Hin.
Qed.

(** X16. The two training views stay aligned.  The email view and the label
    view each have one entry per training record, in the order of the
    training subset, built from that record; so entry by entry they carry the
    same identifier. *)
Theorem training_views_are_aligned (trainSet : slice EmailRecord) :
  elems (trainEmailSetOf trainSet)
    = (λ r, {| TE_ID := ID r; TE_Email := Email r |}) <$> elems trainSet ∧
  elems (trainResultSetOf trainSet)
    = (λ r, {| TR_ID := ID r; TR_Result := Result r |}) <$> elems trainSet ∧
  TE_ID <$> elems (trainEmailSetOf trainSet) = TR_ID <$> elems (trainResultSetOf trainSet).
Proof.
  unfold trainEmailSetOf, trainResultSetOf.
  rewrite (fold_append (λ r, {| TE_ID := ID r; TE_Email := Email r |})).
  rewrite (fold_append (λ r, {| TR_ID := ID r; TR_Result := Result r |})).
  simpl. split; [done|]. split; [done|]. by rewrite <- !list_fmap_compose.
Qed.

(** X17. The file names never collide.  The three fixed names and the names
    of the learning chunks are pairwise distinct, whatever the number of
    chunks: [main] never writes over a file it wrote. *)
Theorem output_names_are_distinct `{enc : StringEncoder}
    (trainSet testSet : slice EmailRecord) (chunks : list (list EmailRecord)) :
  NoDup (intendedFiles trainSet testSet chunks).*1.
Proof.
  unfold intendedFiles. rewrite fmap_app. apply NoDup_app. split; [|split].
  - simpl. apply (bool_decide_unpack _). by vm_compute.
  - intros name Hfixed Hchunk. rewrite chunkFiles_names in Hchunk.
    apply list_elem_of_fmap in Hchunk as (k & -> & _).
    by apply (fixed_name_is_no_chunk_name k).
  - apply chunkFiles_NoDup.
Qed.

(** X18. Outputs are written in a fixed order and a failed write stops the
    run.  After the partition, the files written are an initial part of:
    training emails, training labels, testing set, learning chunks 1, 2, ...;
    files written before a failure stay; and when no error is returned the
    list is complete and the chunks are the whole learning subset. *)
Theorem outputs_are_written_in_order `{enc : StringEncoder}
    (trainSet testSet learnSet : slice EmailRecord) (maxSizeKB : Z) d :
  ∃ chunks done,
    written (writeOutputs trainSet testSet learnSet maxSizeKB d).2 = written d ++ done ∧
    done `prefix_of` intendedFiles trainSet testSet chunks ∧
    concat chunks `prefix_of` elems learnSet ∧
    ((writeOutputs trainSet testSet learnSet maxSizeKB d).1 = Ok tt →
       done = intendedFiles trainSet testSet chunks ∧ concat chunks = elems learnSet).
Proof.
  unfold writeOutputs, intendedFiles.
  destruct (writable d trainEmailJSONFileName) eqn:Hw1.
  2: { rewrite convertAndWrite_refused by done. exists [], []. cbn [fst snd].
       split; [by rewrite app_nil_r|]. split; [apply prefix_nil|].
       split; [apply prefix_nil|done]. }
  rewrite convertAndWrite_ok by done.
  destruct (writable d trainResultJSONFileName) eqn:Hw2.
  2: { rewrite convertAndWrite_refused by done. exists []. eexists. cbn [fst snd written].
       split; [reflexivity|]. split; [by eexists|]. split; [apply prefix_nil|done]. }
  rewrite convertAndWrite_ok by done.
  destruct (writable d testJSONFileName) eqn:Hw3.
  2: { rewrite convertAndWrite_refused by done. exists []. eexists. cbn [fst snd written].
       split; [by rewrite <- app_assoc|]. split; [by eexists|].
       split; [apply prefix_nil|done]. }
  rewrite convertAndWrite_ok by done. cbn [writable written].
  match goal with |- context [SplitAndWriteJSON ?p ?r ?k ?d0] =>
    destruct (SplitAndWriteJSON_spec p r k d0)
      as (chunks & o & d' & Hrun & _ & Hlog & _ & Hpre & Hout); rewrite Hrun end.
  exists chunks. eexists. cbn [fst snd]. rewrite Hlog. cbn [written].
  split; [by rewrite <- !app_assoc|]. split; [done|]. split; [done|].
  intros ->. split; [done|]. by destruct Hout as [[_ ?]|[? _]].
Qed.

(** X19. Fewer than 51 data rows.  For a well-formed file with at most 50
    data rows (an empty data section included), [main] stops with the
    insufficient-data error for counts 30 and 20, whatever the random source,
    and has written no file. *)
Theorem main_needs_51_rows `{enc : StringEncoder} csvFiles Perm d
    (header : list string) (rows : list (list string)) :
  csvFiles csvFileName = Some (header :: rows) →
  3 ≤ length header →
  Forall (λ row, length row = length header) rows →
  length rows ≤ 50 →
  main csvFiles Perm d = (Err (InsufficientDataError 30 20 (Z.of_nat (length rows))), d).
Proof.
  intros Hfile Hheader Hrows Hfew.
  destruct (ReadCSV_wellformed csvFiles csvFileName header rows Hfile Hheader Hrows)
    as (records & Hread & Hbuilt).
  apply Forall2_length in Hbuilt. unfold main. rewrite Hread.
  unfold SplitData. change (GoInt.add trainCount testCount) with 50%Z.
  change (len records) with (length (elems records)). rewrite <- Hbuilt.
  by destruct (Z.leb_spec (Z.of_nat (length rows)) 50); [|lia].
Qed.

Lemma main_needs_51_rows_witness :
  (λ _ : string, Some (manyRows 50)) csvFileName
    = Some (["id"; "email"; "label"]
            :: ((λ i : nat, [pretty i; "a@x";
                             if Nat.even i then "Phishing Email" else "Safe Email"])
                  <$> seq 0 50)) ∧
  3 ≤ length ["id"; "email"; "label"] ∧
  Forall (λ row, length row = length ["id"; "email"; "label"])
    ((λ i : nat, [pretty i; "a@x"; if Nat.even i then "Phishing Email" else "Safe Email"])
       <$> seq 0 50) ∧
  length ((λ i : nat, [pretty i; "a@x"; if Nat.even i then "Phishing Email" else "Safe Email"])
            <$> seq 0 50) ≤ 50 ∧
  @main quotePlain (λ _, Some (manyRows 50)) reversed allWritable
  = (Err (InsufficientDataError 30 20
            (Z.of_nat (length ((λ i : nat, [pretty i; "a@x";
                                            if Nat.even i then "Phishing Email"
                                            else "Safe Email"]) <$> seq 0 50)))),
     allWritable).
Proof.
  assert (3 ≤ length ["id"; "email"; "label"]) as Hheader by (simpl; lia).
  assert (Forall (λ row, length row = length ["id"; "email"; "label"])
    ((λ i : nat, [pretty i; "a@x"; if Nat.even i then "Phishing Email" else "Safe Email"])
       <$> seq 0 50)) as Hrows by (apply Forall_fmap, Forall_forall; reflexivity).
  assert (length ((λ i : nat, [pretty i; "a@x";
                               if Nat.even i then "Phishing Email" else "Safe Email"])
                    <$> seq 0 50) ≤ 50) as Hfew by (rewrite length_fmap, length_seq; lia).
  split; [reflexivity|]. split; [exact Hheader|]. split; [exact Hrows|]. split; [exact Hfew|].
  exact (@main_needs_51_rows quotePlain (λ _, Some (manyRows 50)) reversed allWritable
           _ _ eq_refl Hheader Hrows Hfew).
Defined.

(** X20. A full run.  For a well-formed file with more than 50 data rows, a
    permutation from the random source and a disk that accepts every write,
    [main] returns no error and writes, in this order, the email view and the
    label view of a training subset of 30 records, a testing subset of 20
    records, and chunk files that together hold the learning subset, which is
    the remaining records: every loaded record is in exactly one of the
    training subset, the testing subset and the chunks. *)
Theorem main_full_run `{enc : StringEncoder} csvFiles Perm d
    (header : list string) (rows : list (list string)) :
  csvFiles csvFileName = Some (header :: rows) →
  3 ≤ length header →
  Forall (λ row, length row = length header) rows →
  50 < length rows →
  (Z.of_nat (length rows) ≤ GoInt.max_int)%Z →
  Perm (length rows) ≡ₚ seq 0 (length rows) →
  (∀ name, writable d name = true) →
  ∃ records trainSet testSet learnSet chunks d',
    ReadCSV csvFiles csvFileName = Ok records ∧
    SplitData Perm records trainCount testCount = Ok (trainSet, testSet, learnSet) ∧
    main csvFiles Perm d = (Ok tt, d') ∧
    written d' = written d ++ intendedFiles trainSet testSet chunks ∧
    concat chunks = elems learnSet ∧
    elems trainSet ++ elems testSet ++ concat chunks ≡ₚ elems records ∧
    len records = length rows ∧
    len trainSet = 30 ∧ len testSet = 20 ∧ len learnSet = length rows - 50.
Proof.
  intros Hfile Hheader Hrows Hmany Hint Hperm Hw.
  destruct (ReadCSV_wellformed csvFiles csvFileName header rows Hfile Hheader Hrows)
    as (records & Hread & Hbuilt).
  apply Forall2_length in Hbuilt.
  assert (len records = length rows) as Hlen by done.
  rewrite <- Hlen in Hperm, Hint.
  assert (GoInt.representable (trainCount + testCount)) as Hrep
    by (split; vm_compute; discriminate).
  destruct (SplitData_valid Perm records trainCount testCount) as (Hsplit & Hl1 & Hl2 & Hl3);
    [unfold trainCount; lia|unfold testCount; lia|unfold trainCount, testCount; lia|done|done|].
  set (trainIndices := take (Z.to_nat trainCount) (Perm (len records))) in *.
  set (testIndices := take (Z.to_nat testCount)
                        (drop (Z.to_nat trainCount) (Perm (len records)))) in *.
  assert (∀ p, length (membersAt (elems records) (positions p (len records)))
               = length (positions p (len records))) as Hmem
    by (intros p; apply membersAt_length, positions_bounded).
  destruct (SplitAndWriteJSON_spec learnJSONFilePrefix
              (SliceOf (membersAt (elems records)
                          (positions (toLearn trainIndices testIndices) (len records))))
              maxFileSizeKB
              {| writable := writable d;
                 written := ((written d
                   ++ [(trainEmailJSONFileName,
                        MarshalIndent (trainEmailSetOf (SliceOf (membersAt (elems records)
                          (positions (toTrain trainIndices) (len records))))))])
                   ++ [(trainResultJSONFileName,
                        MarshalIndent (trainResultSetOf (SliceOf (membersAt (elems records)
                          (positions (toTrain trainIndices) (len records))))))])
                   ++ [(testJSONFileName,
                        MarshalIndent (SliceOf (membersAt (elems records)
                          (positions (toTest trainIndices testIndices) (len records)))))] |})
    as (chunks & o & d' & Hrun & _ & Hlog & _ & _ & Hout).
  destruct Hout as [[-> Hcat]|[_ Hno]]; [|by cbn [writable] in Hno; rewrite Hw in Hno].
  exists records. do 3 eexists. exists chunks, d'.
  split; [exact Hread|]. split; [exact Hsplit|]. split.
  { unfold main. rewrite Hread, Hsplit. unfold writeOutputs.
    rewrite !convertAndWrite_ok by apply Hw. exact Hrun. }
  split. { rewrite Hlog. unfold intendedFiles. cbn [written]. by rewrite <- !app_assoc. }
  split; [exact Hcat|].
  split. { rewrite Hcat. by apply (SplitData_conserves Perm records trainCount testCount). }
  split; [exact Hlen|].
  split; [|split];
    (match goal with |- len (SliceOf ?L) = _ => change (len (SliceOf L)) with (length L) end);
    rewrite Hmem, ?Hl1, ?Hl2, ?Hl3, ?Hlen; unfold trainCount, testCount; lia.
Qed.

Lemma main_full_run_witness :
  (λ _ : string, Some (manyRows 51)) csvFileName
    = Some (["id"; "email"; "label"]
            :: ((λ i : nat, [pretty i; "a@x";
                             if Nat.even i then "Phishing Email" else "Safe Email"])
                  <$> seq 0 51)) ∧
  ∃ records trainSet testSet learnSet chunks d',
    ReadCSV (λ _, Some (manyRows 51)) csvFileName = Ok records ∧
    SplitData reversed records trainCount testCount = Ok (trainSet, testSet, learnSet) ∧
    @main quotePlain (λ _, Some (manyRows 51)) reversed allWritable = (Ok tt, d') ∧
    written d' = written allWritable ++ @intendedFiles quotePlain trainSet testSet chunks ∧
    concat chunks = elems learnSet ∧
    elems trainSet ++ elems testSet ++ concat chunks ≡ₚ elems records ∧
    len records = length ((λ i : nat, [pretty i; "a@x";
                                       if Nat.even i then "Phishing Email" else "Safe Email"])
                            <$> seq 0 51) ∧
    len trainSet = 30 ∧ len testSet = 20 ∧
    len learnSet = length ((λ i : nat, [pretty i; "a@x";
                                        if Nat.even i then "Phishing Email"
                                        else "Safe Email"]) <$> seq 0 51) - 50.
Proof.
  split; [reflexivity|].
  apply (@main_full_run quotePlain (λ _, Some (manyRows 51)) reversed allWritable
           ["id"; "email"; "label"]
           ((λ i : nat, [pretty i; "a@x"; if Nat.even i then "Phishing Email" else "Safe Email"])
              <$> seq 0 51)).
  - reflexivity.
  - simpl. lia.
  - apply Forall_fmap, Forall_forall. reflexivity.
  - rewrite length_fmap, length_seq. lia.
  - rewrite length_fmap, length_seq. vm_compute. discriminate.
  - apply reversed_Permutation.
  - reflexivity.
Defined.
